(** * Cruzamento de quatro vias: shallow embedding of [cruzamento-quatro-vias.c]

    The program coordinates car threads ([carros]), ambulance threads
    ([ambulancia]) and one controller thread ([fluxo_trafego]) around the
    global [cruzamento], protected by the mutex [cruzamento.lock] and the
    condition variable [cruzamento.pode_cruzar].

    Modelling choices.
    - The three C enums are [int]s; they are embedded as [Z] with the
      enumerators as constants, so that values outside the enumerators
      (for instance [NUM_DIRECOES], which is itself a [Direcao]) exist.
    - The counters are C [int]s.  Every one of them is only moved by one
      unit per vehicle thread and the program has 41 vehicle threads, so
      no arithmetic on them leaves the range of [int]; they are [Z].
    - Every access to the shared fields happens between
      [pthread_mutex_lock] and the next [pthread_mutex_unlock] or
      [pthread_cond_wait] on [cruzamento.lock].  One transition of a thread
      is therefore one such critical section, run atomically.  [sleep] and
      [printf] do not touch the shared fields and are scheduling points.
    - A thread blocked in [pthread_cond_wait] may be resumed at any time
      (POSIX allows spurious wake-ups, and the waiting loops of the source
      are written against them); on resumption it re-runs its loop test.
    - The fields [lock], [lock_rand], [pode_cruzar] and the id counters
      (used only to number the vehicles in the log) carry no state that the
      modelled functions read. *)

From Stdlib Require Import ZArith Bool List Lia.
From Stdlib Require Import Floats.SpecFloat.
From stdpp Require Import base list relations.

Local Open Scope Z_scope.

(** ** Enumerations *)

Module Direcao.
Definition NORTE : Z := 0.
Definition SUL : Z := 1.
Definition LESTE : Z := 2.
Definition OESTE : Z := 3.
Definition NUM_DIRECOES : Z := 4.
End Direcao.
Import Direcao.

Module EstadoFluxo.
Definition FLUXO_NS : Z := 0.
Definition FLUXO_LO : Z := 1.
Definition AMBULANCIA_NS : Z := 2.
Definition AMBULANCIA_LO : Z := 3.
End EstadoFluxo.
Import EstadoFluxo.

Module TipoVeiculo.
Definition TIPO_CARRO : Z := 0.
Definition TIPO_AMBULANCIA : Z := 1.
End TipoVeiculo.
Import TipoVeiculo.

(** ** Policy constants *)

Definition T_MINIMO : Z := 5.
Definition T_MAXIMO : Z := 20.

Definition CARROS_NORTE : nat := 15.
Definition CARROS_SUL : nat := 3.
Definition CARROS_LESTE : nat := 8.
Definition CARROS_OESTE : nat := 8.

Definition AMBULANCIA_NORTE : nat := 2.
Definition AMBULANCIA_SUL : nat := 1.
Definition AMBULANCIA_LESTE : nat := 3.
Definition AMBULANCIA_OESTE : nat := 1.

(** ** The shared aggregate [Cruzamento] *)

Record Cruzamento := mkCruzamento {
  carros_esperando : list Z;
  ambulancias_esperando : list Z;
  carros_no_cruzamento : Z;
  ambulancias_no_cruzamento : Z;
  modo_emergencia : bool;
  estado_atual : Z
}.

(** [a[i]] and [a[i] = v] on an [int] array.  An index outside the array is
    undefined behaviour in C; the threads only index with the direction
    they were created with. *)
Definition arr_get (a : list Z) (i : Z) : Z := nth (Z.to_nat i) a 0.
Definition arr_set (a : list Z) (i : Z) (v : Z) : list Z :=
  <[Z.to_nat i := v]> a.

Definition set_carros_esperando (c : Cruzamento) (a : list Z) : Cruzamento :=
  mkCruzamento a (ambulancias_esperando c) (carros_no_cruzamento c)
    (ambulancias_no_cruzamento c) (modo_emergencia c) (estado_atual c).

Definition set_ambulancias_esperando (c : Cruzamento) (a : list Z) : Cruzamento :=
  mkCruzamento (carros_esperando c) a (carros_no_cruzamento c)
    (ambulancias_no_cruzamento c) (modo_emergencia c) (estado_atual c).

Definition set_carros_no_cruzamento (c : Cruzamento) (n : Z) : Cruzamento :=
  mkCruzamento (carros_esperando c) (ambulancias_esperando c) n
    (ambulancias_no_cruzamento c) (modo_emergencia c) (estado_atual c).

Definition set_ambulancias_no_cruzamento (c : Cruzamento) (n : Z) : Cruzamento :=
  mkCruzamento (carros_esperando c) (ambulancias_esperando c)
    (carros_no_cruzamento c) n (modo_emergencia c) (estado_atual c).

Definition set_modo_emergencia (c : Cruzamento) (b : bool) : Cruzamento :=
  mkCruzamento (carros_esperando c) (ambulancias_esperando c)
    (carros_no_cruzamento c) (ambulancias_no_cruzamento c) b (estado_atual c).

Definition set_estado_atual (c : Cruzamento) (e : Z) : Cruzamento :=
  mkCruzamento (carros_esperando c) (ambulancias_esperando c)
    (carros_no_cruzamento c) (ambulancias_no_cruzamento c)
    (modo_emergencia c) e.

(** ** [pode_passar]

    The function reads the global [cruzamento.modo_emergencia]; the global
    is the first argument here.  The result is the C [int] 0 or 1. *)
Definition pode_passar (cruzamento : Cruzamento) (dir estado tipo : Z) : Z :=
  if ((estado =? AMBULANCIA_NS) || (estado =? AMBULANCIA_LO))
     && negb (tipo =? TIPO_AMBULANCIA)
  then 0
  else if modo_emergencia cruzamento && (tipo =? TIPO_CARRO)
  then 0
  else if ((dir =? NORTE) || (dir =? SUL))
          && ((estado =? FLUXO_NS) || (estado =? AMBULANCIA_NS))
  then 1
  else if ((dir =? LESTE) || (dir =? OESTE))
          && ((estado =? FLUXO_LO) || (estado =? AMBULANCIA_LO))
  then 1
  else 0.

(** The axis of a direction and the axis a flow selector opens; [None] for
    a value that is no enumerator of the four directions, resp. of
    [EstadoFluxo]. *)
Inductive Eixo := EixoNS | EixoLO.

Definition eixo_direcao (dir : Z) : option Eixo :=
  if (dir =? NORTE) || (dir =? SUL) then Some EixoNS
  else if (dir =? LESTE) || (dir =? OESTE) then Some EixoLO
  else None.

Definition eixo_estado (estado : Z) : option Eixo :=
  if (estado =? FLUXO_NS) || (estado =? AMBULANCIA_NS) then Some EixoNS
  else if (estado =? FLUXO_LO) || (estado =? AMBULANCIA_LO) then Some EixoLO
  else None.

Definition no_eixo (e : Eixo) (dir : Z) : bool :=
  match e with
  | EixoNS => (dir =? NORTE) || (dir =? SUL)
  | EixoLO => (dir =? LESTE) || (dir =? OESTE)
  end.

Definition estado_normal (estado : Z) : Prop :=
  estado = FLUXO_NS \/ estado = FLUXO_LO.

Definition estado_ambulancia (estado : Z) : Prop :=
  estado = AMBULANCIA_NS \/ estado = AMBULANCIA_LO.

Definition direcao_valida (dir : Z) : Prop :=
  dir = NORTE \/ dir = SUL \/ dir = LESTE \/ dir = OESTE.

(** ** Floating point of the window computation

    [T_BASE] and [FATOR_CARRO] are [double] literals, the expression
    [T_BASE + ((num_carros - 1) * FATOR_CARRO)] is evaluated in [double]
    (IEEE 754 binary64, round to nearest even, the product and the sum
    rounded separately), stored in the [float] [tempo_calculado] (binary32)
    and converted to [int] by truncation.  The arithmetic is the one of
    [SpecFloat], which computes. *)
Module Float.
Definition prec64 : Z := 53.
Definition emax64 : Z := 1024.
Definition prec32 : Z := 24.
Definition emax32 : Z := 128.

(** [(double) n] for an [int] n. *)
Definition double_of_int (n : Z) : spec_float :=
  binary_normalize prec64 emax64 n 0 false.

(** The [double] of a decimal literal with one digit after the point,
    [n / 10]: the correctly rounded quotient. *)
Definition double_of_tenths (n : Z) : spec_float :=
  SFdiv prec64 emax64 (double_of_int n) (double_of_int 10).

Definition add (x y : spec_float) : spec_float := SFadd prec64 emax64 x y.
Definition mul (x y : spec_float) : spec_float := SFmul prec64 emax64 x y.

(** The conversion [double] to [float] of an assignment. *)
Definition float_of_double (x : spec_float) : spec_float :=
  match x with
  | S754_finite s m e => binary_round prec32 emax32 s m e
  | _ => x
  end.

(** [(int) x]: the value of [x] with the fractional part discarded.  C
    leaves the conversion undefined when that integer is no [int] (and for
    infinities and NaN); the truncated integer is returned here for every
    finite [x]. *)
Definition int_of_float (x : spec_float) : Z :=
  match x with
  | S754_finite s m e => cond_Zopp s (Z.shiftl (Zpos m) e)
  | _ => 0
  end.
End Float.

Definition T_BASE : spec_float := Float.double_of_tenths 18.
Definition FATOR_CARRO : spec_float := Float.double_of_tenths 22.

(** ** The controller's decisions (bodies of [fluxo_trafego]) *)

Definition demanda_ns (c : Cruzamento) : Z :=
  arr_get (carros_esperando c) NORTE + arr_get (carros_esperando c) SUL.
Definition demanda_lo (c : Cruzamento) : Z :=
  arr_get (carros_esperando c) LESTE + arr_get (carros_esperando c) OESTE.
Definition demanda_amb_ns (c : Cruzamento) : Z :=
  arr_get (ambulancias_esperando c) NORTE + arr_get (ambulancias_esperando c) SUL.
Definition demanda_amb_lo (c : Cruzamento) : Z :=
  arr_get (ambulancias_esperando c) LESTE + arr_get (ambulancias_esperando c) OESTE.

(** Lines 326-330: the selector of the emergency branch. *)
Definition proximo_estado_emergencia (c : Cruzamento) : Z :=
  if demanda_amb_ns c >=? demanda_amb_lo c then AMBULANCIA_NS else AMBULANCIA_LO.

(** Lines 358-369: the selector of the normal branch and [num_carros]. *)
Definition proximo_estado_normal (c : Cruzamento) : Z * Z :=
  if demanda_ns c >=? demanda_lo c then (FLUXO_NS, demanda_ns c)
  else (FLUXO_LO, demanda_lo c).

(** Lines 373-374. *)
Definition tempo_calculado (num_carros : Z) : spec_float :=
  Float.float_of_double
    (if num_carros >? 0
     then Float.add T_BASE (Float.mul (Float.double_of_int (num_carros - 1)) FATOR_CARRO)
     else T_BASE).

(** Lines 379-380. *)
Definition limita_tempo (tempo_final : Z) : Z :=
  if tempo_final >? T_MAXIMO then T_MAXIMO
  else if tempo_final <? T_MINIMO then T_MINIMO
  else tempo_final.

(** Lines 373-380: the window granted to [num_carros] waiting cars. *)
Definition tempo_final (num_carros : Z) : Z :=
  limita_tempo (Float.int_of_float (tempo_calculado num_carros)).

(** Lines 398-403: has the queue of the open axis emptied? *)
Definition fila_ativa_esvaziou (proximo_estado : Z) (c : Cruzamento) : bool :=
  if proximo_estado =? FLUXO_NS
  then (arr_get (carros_esperando c) NORTE =? 0) && (arr_get (carros_esperando c) SUL =? 0)
  else (arr_get (carros_esperando c) LESTE =? 0) && (arr_get (carros_esperando c) OESTE =? 0).

(** ** The vehicle threads

    A program point names where a thread rests between two critical
    sections.  Each function below runs the critical section that starts
    at the given point and returns the shared state it leaves and the
    point where the thread rests next. *)

(** [carros]: before the lock of line 165; inside [pthread_cond_wait] of
    line 174; in the intersection, before the lock of line 190. *)
Inductive PcCarro := CarroAproximando | CarroEsperando | CarroCruzando.

(** Lines 170-184: the waiting loop and, once it is left, the entry. *)
Definition carros_tenta_entrar (direcao_carro : Z) (c : Cruzamento)
  : Cruzamento * PcCarro :=
  if pode_passar c direcao_carro (estado_atual c) TIPO_CARRO =? 0
  then (c, CarroEsperando)
  else
    let c1 := set_carros_esperando c
                (arr_set (carros_esperando c) direcao_carro
                   (arr_get (carros_esperando c) direcao_carro - 1)) in
    (set_carros_no_cruzamento c1 (carros_no_cruzamento c1 + 1), CarroCruzando).

Definition carros (direcao_carro : Z) (pc : PcCarro) (c : Cruzamento)
  : Cruzamento * PcCarro :=
  match pc with
  | CarroAproximando =>
      (* lines 165-167 *)
      carros_tenta_entrar direcao_carro
        (set_carros_esperando c
           (arr_set (carros_esperando c) direcao_carro
              (arr_get (carros_esperando c) direcao_carro + 1)))
  | CarroEsperando => carros_tenta_entrar direcao_carro c
  | CarroCruzando =>
      (* lines 190-197 *)
      (set_carros_no_cruzamento c (carros_no_cruzamento c - 1), CarroAproximando)
  end.

(** [ambulancia]: before the lock of line 235; announced, before the lock of
    line 246; inside [pthread_cond_wait] of line 253; in the intersection,
    before the lock of line 269. *)
Inductive PcAmbulancia :=
  AmbulanciaChegando | AmbulanciaAnunciada | AmbulanciaEsperando | AmbulanciaCruzando.

(** Lines 250-263. *)
Definition ambulancia_tenta_entrar (direcao_ambulancia : Z) (c : Cruzamento)
  : Cruzamento * PcAmbulancia :=
  if pode_passar c direcao_ambulancia (estado_atual c) TIPO_AMBULANCIA =? 0
  then (c, AmbulanciaEsperando)
  else
    let c1 := set_ambulancias_esperando c
                (arr_set (ambulancias_esperando c) direcao_ambulancia
                   (arr_get (ambulancias_esperando c) direcao_ambulancia - 1)) in
    (set_ambulancias_no_cruzamento c1 (ambulancias_no_cruzamento c1 + 1),
     AmbulanciaCruzando).

(** Lines 269-277: the exit of an ambulance. *)
Definition ambulancia_sai (c : Cruzamento) : Cruzamento :=
  set_modo_emergencia
    (set_ambulancias_no_cruzamento c (ambulancias_no_cruzamento c - 1)) false.

Definition ambulancia (direcao_ambulancia : Z) (pc : PcAmbulancia) (c : Cruzamento)
  : Cruzamento * PcAmbulancia :=
  match pc with
  | AmbulanciaChegando =>
      (* lines 235-240 *)
      (set_modo_emergencia c true, AmbulanciaAnunciada)
  | AmbulanciaAnunciada =>
      (* lines 246-247 *)
      ambulancia_tenta_entrar direcao_ambulancia
        (set_ambulancias_esperando c
           (arr_set (ambulancias_esperando c) direcao_ambulancia
              (arr_get (ambulancias_esperando c) direcao_ambulancia + 1)))
  | AmbulanciaEsperando => ambulancia_tenta_entrar direcao_ambulancia c
  | AmbulanciaCruzando => (ambulancia_sai c, AmbulanciaChegando)
  end.

(** ** The controller thread [fluxo_trafego]

    Its points: the top of the loop (before the lock of line 314); inside
    the [pthread_cond_wait] of line 322, of line 342 and of line 354; and
    the head of the [for] of line 390 with the locals [proximo_estado], [i]
    and [tempo_final]. *)
Inductive PcFluxo :=
| FluxoInicio
| FluxoDrenaEmergencia
| FluxoAguardaEmergencia
| FluxoDrenaNormal
| FluxoJanela (proximo_estado i tempo_final : Z).

(** What a critical section of the controller returns: the shared state, the
    next point, and the value it assigned to [cruzamento.estado_atual], if
    the section contains the assignment of line 332 or of line 370. *)
Definition ResFluxo : Type := Cruzamento * PcFluxo * option Z.

(** Lines 341-348. *)
Definition fluxo_aguarda_emergencia (c : Cruzamento) : PcFluxo :=
  if modo_emergencia c then FluxoAguardaEmergencia else FluxoInicio.

(** Lines 320-348. *)
Definition fluxo_emergencia (c : Cruzamento) : ResFluxo :=
  if carros_no_cruzamento c >? 0 then (c, FluxoDrenaEmergencia, None)
  else
    let proximo_estado := proximo_estado_emergencia c in
    let c1 := set_estado_atual c proximo_estado in
    (c1, fluxo_aguarda_emergencia c1, Some proximo_estado).

(** Lines 352-387. *)
Definition fluxo_normal (c : Cruzamento) : ResFluxo :=
  if carros_no_cruzamento c >? 0 then (c, FluxoDrenaNormal, None)
  else
    let '(proximo_estado, num_carros) := proximo_estado_normal c in
    let c1 := set_estado_atual c proximo_estado in
    (c1, FluxoJanela proximo_estado 0 (tempo_final num_carros), Some proximo_estado).

Definition fluxo_trafego (pc : PcFluxo) (c : Cruzamento) : ResFluxo :=
  match pc with
  | FluxoInicio =>
      (* lines 314-317 *)
      if modo_emergencia c then fluxo_emergencia c else fluxo_normal c
  | FluxoDrenaEmergencia => fluxo_emergencia c
  | FluxoAguardaEmergencia => (c, fluxo_aguarda_emergencia c, None)
  | FluxoDrenaNormal => fluxo_normal c
  | FluxoJanela proximo_estado i tempo_final =>
      (* lines 390-413 *)
      if i <? tempo_final
      then if fila_ativa_esvaziou proximo_estado c
           then (c, FluxoInicio, None)
           else (c, FluxoJanela proximo_estado (i + 1) tempo_final, None)
      else (c, FluxoInicio, None)
  end.

(** ** The whole program *)

Record Sistema := mkSistema {
  cruzamento : Cruzamento;
  pc_fluxo : PcFluxo;
  th_carros : list (Z * PcCarro);
  th_ambulancias : list (Z * PcAmbulancia)
}.

Inductive Thread := ThFluxo | ThCarro (i : nat) | ThAmbulancia (i : nat).

(** One critical section of thread [t]; [None] when there is no such
    thread. *)
Definition passo (t : Thread) (s : Sistema) : option Sistema :=
  match t with
  | ThFluxo =>
      let '(c, pc, _) := fluxo_trafego (pc_fluxo s) (cruzamento s) in
      Some (mkSistema c pc (th_carros s) (th_ambulancias s))
  | ThCarro i =>
      match th_carros s !! i with
      | Some (d, pc) =>
          let '(c, pc') := carros d pc (cruzamento s) in
          Some (mkSistema c (pc_fluxo s) (<[i := (d, pc')]> (th_carros s))
                  (th_ambulancias s))
      | None => None
      end
  | ThAmbulancia i =>
      match th_ambulancias s !! i with
      | Some (d, pc) =>
          let '(c, pc') := ambulancia d pc (cruzamento s) in
          Some (mkSistema c (pc_fluxo s) (th_carros s)
                  (<[i := (d, pc')]> (th_ambulancias s)))
      | None => None
      end
  end.

Definition step (s s' : Sistema) : Prop := exists t, passo t s = Some s'.

(** A schedule run from [s]. *)
Fixpoint executa (ts : list Thread) (s : Sistema) : option Sistema :=
  match ts with
  | [] => Some s
  | t :: ts' =>
      match passo t s with
      | Some s' => executa ts' s'
      | None => None
      end
  end.

(** The state [main] builds (lines 436-445) with one car thread per entry
    of [dcarros] and one ambulance thread per entry of [dambulancias]. *)
Definition inicial (dcarros dambulancias : list Z) : Sistema :=
  mkSistema
    (mkCruzamento [0; 0; 0; 0] [0; 0; 0; 0] 0 0 false FLUXO_NS)
    FluxoInicio
    (map (fun d => (d, CarroAproximando)) dcarros)
    (map (fun d => (d, AmbulanciaChegando)) dambulancias).

(** Lines 451-508: the population of [main]. *)
Definition main_carros : list Z :=
  replicate CARROS_NORTE NORTE ++ replicate CARROS_SUL SUL
  ++ replicate CARROS_LESTE LESTE ++ replicate CARROS_OESTE OESTE.

Definition main_ambulancias : list Z :=
  replicate AMBULANCIA_NORTE NORTE ++ replicate AMBULANCIA_SUL SUL
  ++ replicate AMBULANCIA_LESTE LESTE ++ replicate AMBULANCIA_OESTE OESTE.

Definition main : Sistema := inicial main_carros main_ambulancias.

Definition alcancavel (s0 s : Sistema) : Prop := rtc step s0 s.

(** Number of car threads (ambulance threads) that are inside the
    intersection. *)
Definition carro_cruzando (t : Z * PcCarro) : bool :=
  match snd t with CarroCruzando => true | _ => false end.

Definition ambulancia_cruzando (t : Z * PcAmbulancia) : bool :=
  match snd t with AmbulanciaCruzando => true | _ => false end.

Fixpoint conta {A} (p : A -> bool) (l : list A) : Z :=
  match l with
  | [] => 0
  | x :: l' => (if p x then 1 else 0) + conta p l'
  end.

(** Is some vehicle of axis [e] inside the intersection? *)
Definition eixo_ocupado (e : Eixo) (s : Sistema) : bool :=
  existsb (fun t => carro_cruzando t && no_eixo e (fst t)) (th_carros s)
  || existsb (fun t => ambulancia_cruzando t && no_eixo e (fst t)) (th_ambulancias s).

(** The state of [main] after the schedule [ts] ([main] itself when [ts]
    names a thread that does not exist). *)
Definition apos (ts : list Thread) : Sistema :=
  match executa ts main with
  | Some s => s
  | None => main
  end.

(** ** State predicates used by the invariants *)

Definition peso (b : bool) : Z := if b then 1 else 0.

(** [carros_no_cruzamento] is the number of car threads between their
    entry and their exit. *)
Definition inv_contagem (s : Sistema) : Prop :=
  carros_no_cruzamento (cruzamento s) = conta carro_cruzando (th_carros s).

(** Cars are inside the intersection only under a normal selector. *)
Definition inv_carros_normal (s : Sistema) : Prop :=
  carros_no_cruzamento (cruzamento s) > 0 ->
  estado_normal (estado_atual (cruzamento s)).

(** Every car inside the intersection came from the axis that the current
    selector opens. *)
Definition inv_carros_eixo (s : Sistema) : Prop :=
  forall i d, th_carros s !! i = Some (d, CarroCruzando) ->
  eixo_direcao d = eixo_estado (estado_atual (cruzamento s)).

(** The schedules of two runs in which a car and an ambulance end up
    inside the intersection together.  Cars 0-14 come from the North;
    ambulances 0-1 from the North and 3-5 from the East.  In the first run
    no thread ever waits.  In the second one every thread that leaves a
    [pthread_cond_wait] does so after a [pthread_cond_broadcast]: the
    ambulances after the one of line 338, the controller after the one of
    line 276, the car after the one of line 386. *)
Definition escalonamento_mesmo_eixo : list Thread :=
  [ThCarro 0; ThAmbulancia 0; ThAmbulancia 0].

Definition escalonamento_eixos_opostos : list Thread :=
  [ThAmbulancia 3; ThAmbulancia 3; ThAmbulancia 4; ThAmbulancia 4; ThFluxo;
   ThAmbulancia 3; ThAmbulancia 4; ThCarro 0; ThAmbulancia 4; ThFluxo; ThFluxo;
   ThCarro 0].

(** ** The numbering of the vehicles

    Each vehicle thread, before its loop, takes the next number of its
    direction under [lock_contadores_id] (lines 147-152 for the cars, over
    [contadores_id_carros]; lines 222-227 for the ambulances, over
    [contadores_id_ambulancias]).  [main] starts every counter at 1 (lines
    442-443). *)
Definition contadores_id_inicial : list Z := [1; 1; 1; 1].

(** The section under [lock_contadores_id]: the id taken and the counters
    left. *)
Definition pega_id (contadores : list Z) (direcao : Z) : Z * list Z :=
  (arr_get contadores direcao,
   arr_set contadores direcao (arr_get contadores direcao + 1)).

(** The threads of the directions [ds] take their ids in this order (the
    order in which they win the lock); the result pairs each direction
    with the id its thread got. *)
Fixpoint atribui_ids (contadores : list Z) (ds : list Z) : list (Z * Z) :=
  match ds with
  | [] => []
  | d :: ds' =>
      let '(id, contadores') := pega_id contadores d in
      (d, id) :: atribui_ids contadores' ds'
  end.

(** ** The simulated delays

    [tempo = 2 + (rand() % 8)] of line 160 and [tempo = 30 + (rand() % 30)]
    of line 281, as functions of the value [r] that [rand()] returned.  The
    C remainder truncates towards zero: it is [Z.rem]. *)
Definition carros_tempo (r : Z) : Z := 2 + Z.rem r 8.
Definition ambulancia_tempo (r : Z) : Z := 30 + Z.rem r 30.

(** ** The creation of the threads in [main] (lines 451-508)

    Each of the eight loops runs [pthread_create(&veiculos_t[thread_idx],
    NULL, rotina, args)] with [args->direcao] set, then [thread_idx++]. *)
Inductive Rotina := RotinaCarros | RotinaAmbulancia.

Record Criacao := mkCriacao {
  cr_slot : Z;          (* the index into [veiculos_t] *)
  cr_rotina : Rotina;
  cr_direcao : Z
}.

(** One loop [for(i = 0; i < n; i++)]: the creations it makes and the
    value of [thread_idx] it leaves. *)
Fixpoint cria_threads (n : nat) (r : Rotina) (d : Z) (thread_idx : Z)
  : list Criacao * Z :=
  match n with
  | O => ([], thread_idx)
  | S n' =>
      let '(l, idx) := cria_threads n' r d (thread_idx + 1) in
      (mkCriacao thread_idx r d :: l, idx)
  end.

(** The eight loops in the order of [main], for a population given by the
    eight macros. *)
Definition main_cria (cn cs cl co an as_ al ao : nat) : list Criacao * Z :=
  let '(l1, i1) := cria_threads cn RotinaCarros NORTE 0 in
  let '(l2, i2) := cria_threads cs RotinaCarros SUL i1 in
  let '(l3, i3) := cria_threads cl RotinaCarros LESTE i2 in
  let '(l4, i4) := cria_threads co RotinaCarros OESTE i3 in
  let '(l5, i5) := cria_threads an RotinaAmbulancia NORTE i4 in
  let '(l6, i6) := cria_threads as_ RotinaAmbulancia SUL i5 in
  let '(l7, i7) := cria_threads al RotinaAmbulancia LESTE i6 in
  let '(l8, i8) := cria_threads ao RotinaAmbulancia OESTE i7 in
  (l1 ++ l2 ++ l3 ++ l4 ++ l5 ++ l6 ++ l7 ++ l8, i8).

Definition TOTAL_CARROS : nat :=
  (CARROS_NORTE + CARROS_SUL + CARROS_LESTE + CARROS_OESTE)%nat.
Definition TOTAL_AMBULANCIAS : nat :=
  (AMBULANCIA_NORTE + AMBULANCIA_SUL + AMBULANCIA_LESTE + AMBULANCIA_OESTE)%nat.
Definition TOTAL_VEICULOS : nat := (TOTAL_CARROS + TOTAL_AMBULANCIAS)%nat.

Definition direcoes_de (r : Rotina) (l : list Criacao) : list Z :=
  map cr_direcao
    (List.filter (fun c => match cr_rotina c, r with
                           | RotinaCarros, RotinaCarros => true
                           | RotinaAmbulancia, RotinaAmbulancia => true
                           | _, _ => false
                           end) l).

(** ** Waiting and waking

    Does the critical section that starts at the given point run
    [pthread_cond_broadcast]?  For a car, only the exit (line 196); for an
    ambulance, the announcement (line 238) and the exit (line 276); for the
    controller, the sections that get past a draining loop (lines 338 and
    386). *)
Definition carros_broadcast (pc : PcCarro) : bool :=
  match pc with
  | CarroCruzando => true
  | _ => false
  end.

Definition ambulancia_broadcast (pc : PcAmbulancia) : bool :=
  match pc with
  | AmbulanciaChegando | AmbulanciaCruzando => true
  | _ => false
  end.

Definition fluxo_broadcast (pc : PcFluxo) (c : Cruzamento) : bool :=
  match pc with
  | FluxoInicio | FluxoDrenaEmergencia | FluxoDrenaNormal =>
      negb (carros_no_cruzamento c >? 0)
  | _ => false
  end.

Definition broadcast (t : Thread) (s : Sistema) : bool :=
  match t with
  | ThFluxo => fluxo_broadcast (pc_fluxo s) (cruzamento s)
  | ThCarro i =>
      match th_carros s !! i with
      | Some (_, pc) => carros_broadcast pc
      | None => false
      end
  | ThAmbulancia i =>
      match th_ambulancias s !! i with
      | Some (_, pc) => ambulancia_broadcast pc
      | None => false
      end
  end.

(** Is the thread inside a [pthread_cond_wait] whose loop test still
    holds?  ([false] for a thread that does not exist.) *)
Definition carro_bloqueado (c : Cruzamento) (t : Z * PcCarro) : bool :=
  match snd t with
  | CarroEsperando => pode_passar c (fst t) (estado_atual c) TIPO_CARRO =? 0
  | _ => false
  end.

Definition ambulancia_bloqueada (c : Cruzamento) (t : Z * PcAmbulancia) : bool :=
  match snd t with
  | AmbulanciaEsperando =>
      pode_passar c (fst t) (estado_atual c) TIPO_AMBULANCIA =? 0
  | _ => false
  end.

Definition fluxo_bloqueado (c : Cruzamento) (pc : PcFluxo) : bool :=
  match pc with
  | FluxoDrenaEmergencia | FluxoDrenaNormal => carros_no_cruzamento c >? 0
  | FluxoAguardaEmergencia => modo_emergencia c
  | _ => false
  end.

Definition bloqueada (t : Thread) (s : Sistema) : bool :=
  match t with
  | ThFluxo => fluxo_bloqueado (cruzamento s) (pc_fluxo s)
  | ThCarro i =>
      match th_carros s !! i with
      | Some tc => carro_bloqueado (cruzamento s) tc
      | None => false
      end
  | ThAmbulancia i =>
      match th_ambulancias s !! i with
      | Some ta => ambulancia_bloqueada (cruzamento s) ta
      | None => false
      end
  end.

(** The controller's successive critical sections, the [k]-th one run on
    the [k]-th shared state of [cs] (what the vehicles left there): the
    point it rests at in the end. *)
Fixpoint fluxo_trafego_seq (cs : list Cruzamento) (pc : PcFluxo) : PcFluxo :=
  match cs with
  | [] => pc
  | c :: cs' => fluxo_trafego_seq cs' (snd (fst (fluxo_trafego pc c)))
  end.

(** ** Accounting of the queues *)

Definition carro_esperando_em (d : Z) (t : Z * PcCarro) : bool :=
  (fst t =? d) && match snd t with CarroEsperando => true | _ => false end.

Definition ambulancia_esperando_em (d : Z) (t : Z * PcAmbulancia) : bool :=
  (fst t =? d) && match snd t with AmbulanciaEsperando => true | _ => false end.

(** Each waiting counter is the number of threads of that direction inside
    the waiting loop, [ambulancias_no_cruzamento] the number of ambulance
    threads between entry and exit; both arrays keep their four cells and
    the threads keep their directions. *)
Definition inv_filas (dcarros dambulancias : list Z) (s : Sistema) : Prop :=
  length (carros_esperando (cruzamento s)) = 4%nat
  /\ length (ambulancias_esperando (cruzamento s)) = 4%nat
  /\ map fst (th_carros s) = dcarros
  /\ map fst (th_ambulancias s) = dambulancias
  /\ (forall d, direcao_valida d ->
        arr_get (carros_esperando (cruzamento s)) d
        = conta (carro_esperando_em d) (th_carros s))
  /\ (forall d, direcao_valida d ->
        arr_get (ambulancias_esperando (cruzamento s)) d
        = conta (ambulancia_esperando_em d) (th_ambulancias s))
  /\ ambulancias_no_cruzamento (cruzamento s)
     = conta ambulancia_cruzando (th_ambulancias s).

Definition estado_valido (estado : Z) : Prop :=
  estado_normal estado \/ estado_ambulancia estado.

(** An emergency is declared only while some ambulance is between its
    announcement and its exit. *)
Definition inv_emergencia (s : Sistema) : Prop :=
  modo_emergencia (cruzamento s) = true ->
  exists i d pc, th_ambulancias s !! i = Some (d, pc) /\ pc <> AmbulanciaChegando.

(** A population whose ambulances all come from the East, and a schedule
    after which every thread of it waits. *)
Definition populacao_leste : Sistema := inicial [NORTE] [LESTE].

Definition escalonamento_impasse : list Thread :=
  [ThAmbulancia 0; ThFluxo; ThAmbulancia 0; ThCarro 0].

(** Does [tempo_final] grow with the demand, on the demands up to [n]? *)
Definition tempo_final_cresce_ate (n : nat) : bool :=
  forallb (fun k => tempo_final (Z.of_nat k) <=? tempo_final (Z.of_nat (S k)))
          (seq 0 n).

(** Shared states as the controller may find them at the checks of one
    window: a North car waits at the first two checks, none at the third. *)
Definition observacoes_janela : list Cruzamento :=
  [mkCruzamento [1; 0; 0; 0] [0; 0; 0; 0] 1 0 false FLUXO_NS;
   mkCruzamento [1; 0; 2; 0] [0; 0; 0; 0] 2 0 false FLUXO_NS;
   mkCruzamento [0; 0; 3; 0] [0; 0; 0; 0] 3 0 false FLUXO_NS;
   mkCruzamento [0; 0; 3; 0] [0; 0; 0; 0] 2 0 false FLUXO_NS;
   mkCruzamento [0; 0; 3; 0] [0; 0; 0; 0] 1 0 false FLUXO_NS;
   mkCruzamento [0; 0; 3; 0] [0; 0; 0; 0] 0 0 false FLUXO_NS].

(** * Properties *)

(** ** The admission predicate *)

Ltac casos_pode_passar :=
  unfold pode_passar, eixo_direcao, eixo_estado, estado_normal,
    estado_ambulancia, direcao_valida,
    NORTE, SUL, LESTE, OESTE, NUM_DIRECOES,
    FLUXO_NS, FLUXO_LO, AMBULANCIA_NS, AMBULANCIA_LO,
    TIPO_CARRO, TIPO_AMBULANCIA in *;
  repeat match goal with
         | |- context [?a =? ?b] => destruct (Z.eqb_spec a b)
         | H : context [?a =? ?b] |- _ => destruct (Z.eqb_spec a b)
         end.

Lemma pode_passar_0_ou_1 c dir estado tipo :
  pode_passar c dir estado tipo = 0 \/ pode_passar c dir estado tipo = 1.
Proof.
  unfold pode_passar.
  repeat match goal with |- context [if ?b then _ else _] => destruct b end;
    auto.
Qed.

(** A car that is let through sees a normal selector of its own axis and no
    emergency. *)
Lemma pode_passar_carro c dir estado :
  pode_passar c dir estado TIPO_CARRO <> 0 ->
  estado_normal estado /\ modo_emergencia c = false
  /\ eixo_direcao dir = eixo_estado estado.
Proof.
  destruct c as [ce ae cn an me ea]; destruct me; casos_pode_passar;
    simpl; intros H; try (exfalso; apply H; reflexivity); subst;
    repeat split; auto; try lia; try discriminate.
Qed.

(** C1. For an ordinary vehicle [pode_passar] answers 0 under both ambulance
    selectors; under a normal selector and with no emergency declared it
    answers 1 exactly when the axis of the direction is the axis of the
    selector, whatever the kind of vehicle. *)
Theorem pode_passar_admissao (c : Cruzamento) (dir estado : Z) :
  (estado_ambulancia estado -> pode_passar c dir estado TIPO_CARRO = 0)
  /\ (forall tipo, estado_normal estado -> modo_emergencia c = false ->
        (pode_passar c dir estado tipo = 1
         <-> eixo_direcao dir = eixo_estado estado)).
Proof.
  split.
  - intros [-> | ->]; unfold pode_passar; reflexivity.
  - intros tipo Hn He. unfold pode_passar, eixo_direcao. rewrite He.
    destruct Hn as [-> | ->]; cbn;
      destruct (Z.eqb_spec dir NORTE); destruct (Z.eqb_spec dir SUL);
      destruct (Z.eqb_spec dir LESTE); destruct (Z.eqb_spec dir OESTE);
      subst; try discriminate; cbn;
      split; intros H; try reflexivity; try discriminate H.
Qed.

Lemma pode_passar_admissao_witness :
  pode_passar (mkCruzamento [0; 0; 0; 0] [0; 0; 0; 0] 0 0 false FLUXO_LO)
    OESTE AMBULANCIA_LO TIPO_CARRO = 0
  /\ (pode_passar (mkCruzamento [0; 0; 0; 0] [0; 0; 0; 0] 0 0 false FLUXO_LO)
        OESTE FLUXO_LO TIPO_AMBULANCIA = 1
      <-> eixo_direcao OESTE = eixo_estado FLUXO_LO).
Proof.
  split.
  - apply (proj1 (pode_passar_admissao
                    (mkCruzamento [0; 0; 0; 0] [0; 0; 0; 0] 0 0 false FLUXO_LO)
                    OESTE AMBULANCIA_LO)).
    right; reflexivity.
  - apply (proj2 (pode_passar_admissao
                    (mkCruzamento [0; 0; 0; 0] [0; 0; 0; 0] 0 0 false FLUXO_LO)
                    OESTE FLUXO_LO) TIPO_AMBULANCIA).
    + right; reflexivity.
    + reflexivity.
Defined.

(** C2. While [modo_emergencia] is set, [pode_passar] answers 0 for a car,
    for every direction and every selector; a car thread that runs its
    admission test then stays in the waiting loop and
    [carros_no_cruzamento] keeps its value. *)
Theorem emergencia_barra_carros (c : Cruzamento) (dir : Z) :
  modo_emergencia c = true ->
  (forall estado, pode_passar c dir estado TIPO_CARRO = 0)
  /\ (forall pc, pc <> CarroCruzando ->
        snd (carros dir pc c) = CarroEsperando
        /\ carros_no_cruzamento (fst (carros dir pc c)) = carros_no_cruzamento c).
Proof.
  intros He.
  assert (Hp : forall c' estado,
             modo_emergencia c' = true -> pode_passar c' dir estado TIPO_CARRO = 0).
  { intros c' estado He'. unfold pode_passar. rewrite He'. simpl.
    destruct ((estado =? AMBULANCIA_NS) || (estado =? AMBULANCIA_LO)); reflexivity. }
  split; [intros; apply Hp; exact He|].
  intros pc Hpc. destruct pc; [| |congruence]; unfold carros, carros_tenta_entrar;
    rewrite Hp by exact He; simpl; auto.
Qed.

Lemma emergencia_barra_carros_witness :
  (forall estado,
      pode_passar (mkCruzamento [2; 0; 1; 0] [0; 0; 0; 0] 1 0 true FLUXO_NS)
        NORTE estado TIPO_CARRO = 0)
  /\ (forall pc, pc <> CarroCruzando ->
        snd (carros NORTE pc (mkCruzamento [2; 0; 1; 0] [0; 0; 0; 0] 1 0 true FLUXO_NS))
        = CarroEsperando
        /\ carros_no_cruzamento
             (fst (carros NORTE pc
                     (mkCruzamento [2; 0; 1; 0] [0; 0; 0; 0] 1 0 true FLUXO_NS)))
           = carros_no_cruzamento
               (mkCruzamento [2; 0; 1; 0] [0; 0; 0; 0] 1 0 true FLUXO_NS)).
Proof.
  apply (emergencia_barra_carros
           (mkCruzamento [2; 0; 1; 0] [0; 0; 0; 0] 1 0 true FLUXO_NS) NORTE).
  reflexivity.
Defined.

(** C10. A direction that is none of [NORTE], [SUL], [LESTE], [OESTE] is
    never let through: both axis tests fail and [pode_passar] reaches its
    last [return 0]. *)
Theorem pode_passar_direcao_invalida (c : Cruzamento) (dir estado tipo : Z) :
  ~ direcao_valida dir -> pode_passar c dir estado tipo = 0.
Proof.
  intros Hd. unfold pode_passar.
  assert (Hns : (dir =? NORTE) || (dir =? SUL) = false).
  { apply orb_false_intro; apply Z.eqb_neq; intros ->; apply Hd;
      unfold direcao_valida; auto. }
  assert (Hlo : (dir =? LESTE) || (dir =? OESTE) = false).
  { apply orb_false_intro; apply Z.eqb_neq; intros ->; apply Hd;
      unfold direcao_valida; auto. }
  rewrite Hns, Hlo. simpl.
  repeat match goal with |- context [if ?b then _ else _] => destruct b end;
    reflexivity.
Qed.

Lemma pode_passar_direcao_invalida_witness :
  pode_passar (mkCruzamento [0; 0; 0; 0] [0; 0; 0; 0] 0 0 false FLUXO_NS)
    NUM_DIRECOES FLUXO_NS TIPO_AMBULANCIA = 0.
Proof.
  apply (pode_passar_direcao_invalida
           (mkCruzamento [0; 0; 0; 0] [0; 0; 0; 0] 0 0 false FLUXO_NS)
           NUM_DIRECOES FLUXO_NS TIPO_AMBULANCIA).
  unfold direcao_valida, NUM_DIRECOES, NORTE, SUL, LESTE, OESTE. lia.
Defined.

(** ** The window of the normal branch *)

(** The two literals are the doubles 0x3FFCCCCCCCCCCCCD and
    0x400199999999999A. *)
Lemma T_BASE_bits : T_BASE = S754_finite false 0x1CCCCCCCCCCCCD (-52).
Proof. vm_compute. reflexivity. Qed.

Lemma FATOR_CARRO_bits : FATOR_CARRO = S754_finite false 0x1199999999999A (-51).
Proof. vm_compute. reflexivity. Qed.

Lemma limita_tempo_limites t : T_MINIMO <= limita_tempo t <= T_MAXIMO.
Proof.
  unfold limita_tempo, T_MINIMO, T_MAXIMO.
  destruct (Z.gtb_spec t 20); [lia|].
  destruct (Z.ltb_spec t 5); lia.
Qed.

(** With at most as many waiting cars as [main] creates car threads, the
    truncated sum is an [int], so the conversion of line 376 is defined. *)
Lemma tempo_calculado_cabe_em_int :
  forallb (fun n => let t := Float.int_of_float (tempo_calculado (Z.of_nat n)) in
                    (0 <=? t) && (t <=? 2147483647))
          (seq 0 (S (length main_carros))) = true.
Proof. vm_compute. reflexivity. Qed.

(** C5. Whatever the number of waiting cars of the chosen axis, the window
    [tempo_final] lies between [T_MINIMO] = 5 and [T_MAXIMO] = 20; so does
    the bound of the [for] loop that the normal branch of [fluxo_trafego]
    enters. *)
Theorem tempo_final_limitado :
  (forall num_carros, T_MINIMO <= tempo_final num_carros <= T_MAXIMO)
  /\ (forall c,
        match fluxo_normal c with
        | (_, FluxoJanela _ _ t, _) => T_MINIMO <= t <= T_MAXIMO
        | _ => True
        end)
  /\ T_MINIMO = 5 /\ T_MAXIMO = 20.
Proof.
  split; [|split; [|split; reflexivity]].
  - intros n. unfold tempo_final. apply limita_tempo_limites.
  - intros c. unfold fluxo_normal.
    destruct (carros_no_cruzamento c >? 0); [exact I|].
    destruct (proximo_estado_normal c) as [p n].
    unfold tempo_final. apply limita_tempo_limites.
Qed.

(** C6. With [T_BASE] 1.8, [FATOR_CARRO] 2.2, [T_MINIMO] 5 and [T_MAXIMO]
    20: one waiting car gives a window of 5 (the sum truncates to 1), five
    give 10 (the sum truncates to 10) and twenty give 20 (the sum truncates
    to 43). *)
Theorem tempo_final_exemplos :
  tempo_final 1 = 5 /\ tempo_final 5 = 10 /\ tempo_final 20 = 20
  /\ Float.int_of_float (tempo_calculado 1) = 1
  /\ Float.int_of_float (tempo_calculado 5) = 10
  /\ Float.int_of_float (tempo_calculado 20) = 43.
Proof. repeat split; vm_compute; reflexivity. Qed.

(** ** The choice of the axis *)

(** C7. Whenever the controller decides the next axis, that is, whenever
    a critical section of [fluxo_trafego] gets past its draining loop:
    in the normal branch it assigns [FLUXO_NS] to [estado_atual] exactly
    when [carros_esperando[NORTE] + carros_esperando[SUL]] is at least
    [carros_esperando[LESTE] + carros_esperando[OESTE]], and [FLUXO_LO]
    otherwise, and opens the window computed from the larger sum; in the
    emergency branch it assigns [AMBULANCIA_NS] exactly when the same holds
    of the cells of [ambulancias_esperando], and [AMBULANCIA_LO] otherwise.
    Equal sums therefore give the North-South selector in both branches.
    The controller assigns [estado_atual] in no other section. *)
Theorem desempate_norte_sul (pc : PcFluxo) (c : Cruzamento) :
  ((pc = FluxoDrenaNormal \/ (pc = FluxoInicio /\ modo_emergencia c = false)) ->
   carros_no_cruzamento c <= 0 ->
   exists e pc',
     fluxo_trafego pc c = (set_estado_atual c e, pc', Some e)
     /\ (e = FLUXO_NS
         <-> arr_get (carros_esperando c) NORTE + arr_get (carros_esperando c) SUL
             >= arr_get (carros_esperando c) LESTE
                + arr_get (carros_esperando c) OESTE)
     /\ (e = FLUXO_LO
         <-> arr_get (carros_esperando c) NORTE + arr_get (carros_esperando c) SUL
             < arr_get (carros_esperando c) LESTE
               + arr_get (carros_esperando c) OESTE)
     /\ (arr_get (carros_esperando c) NORTE + arr_get (carros_esperando c) SUL
         = arr_get (carros_esperando c) LESTE + arr_get (carros_esperando c) OESTE
         -> e = FLUXO_NS)
     /\ pc' = FluxoJanela e 0
                (tempo_final
                   (Z.max (arr_get (carros_esperando c) NORTE
                           + arr_get (carros_esperando c) SUL)
                          (arr_get (carros_esperando c) LESTE
                           + arr_get (carros_esperando c) OESTE))))
  /\ ((pc = FluxoDrenaEmergencia \/ (pc = FluxoInicio /\ modo_emergencia c = true)) ->
      carros_no_cruzamento c <= 0 ->
      exists e pc',
        fluxo_trafego pc c = (set_estado_atual c e, pc', Some e)
        /\ (e = AMBULANCIA_NS
            <-> arr_get (ambulancias_esperando c) NORTE
                + arr_get (ambulancias_esperando c) SUL
                >= arr_get (ambulancias_esperando c) LESTE
                   + arr_get (ambulancias_esperando c) OESTE)
        /\ (e = AMBULANCIA_LO
            <-> arr_get (ambulancias_esperando c) NORTE
                + arr_get (ambulancias_esperando c) SUL
                < arr_get (ambulancias_esperando c) LESTE
                  + arr_get (ambulancias_esperando c) OESTE)
        /\ (arr_get (ambulancias_esperando c) NORTE
            + arr_get (ambulancias_esperando c) SUL
            = arr_get (ambulancias_esperando c) LESTE
              + arr_get (ambulancias_esperando c) OESTE
            -> e = AMBULANCIA_NS))
  /\ (forall c' pc' e,
        fluxo_trafego pc c = (c', pc', Some e) ->
        carros_no_cruzamento c <= 0
        /\ ((pc = FluxoDrenaNormal \/ (pc = FluxoInicio /\ modo_emergencia c = false))
            \/ (pc = FluxoDrenaEmergencia
                \/ (pc = FluxoInicio /\ modo_emergencia c = true)))).
Proof.
  split; [|split].
  - intros Hpc Hc.
    assert (Hn : fluxo_trafego pc c = fluxo_normal c).
    { destruct Hpc as [-> | [-> Hm]]; cbn [fluxo_trafego]; [|rewrite Hm];
        reflexivity. }
    rewrite Hn. unfold fluxo_normal, proximo_estado_normal, demanda_ns, demanda_lo.
    destruct (Z.gtb_spec (carros_no_cruzamento c) 0); [lia|].
    match goal with |- context [?a >=? ?b] => destruct (Z.geb_spec a b) end;
      eexists; eexists; (split; [reflexivity|]);
      unfold FLUXO_NS, FLUXO_LO;
      repeat split; intros; try reflexivity; try discriminate; try lia;
      do 3 f_equal; lia.
  - intros Hpc Hc.
    assert (Hn : fluxo_trafego pc c = fluxo_emergencia c).
    { destruct Hpc as [-> | [-> Hm]]; cbn [fluxo_trafego]; [|rewrite Hm];
        reflexivity. }
    rewrite Hn.
    unfold fluxo_emergencia, proximo_estado_emergencia, demanda_amb_ns,
      demanda_amb_lo.
    destruct (Z.gtb_spec (carros_no_cruzamento c) 0); [lia|].
    match goal with |- context [?a >=? ?b] => destruct (Z.geb_spec a b) end;
      eexists; eexists; (split; [reflexivity|]);
      unfold AMBULANCIA_NS, AMBULANCIA_LO;
      repeat split; intros; try reflexivity; try discriminate; lia.
  - intros c' pc' e. unfold fluxo_trafego, fluxo_emergencia, fluxo_normal.
    destruct (proximo_estado_normal c) as [p n].
    destruct (Z.gtb_spec (carros_no_cruzamento c) 0);
      destruct pc; destruct (modo_emergencia c);
      repeat match goal with
             | |- context [if ?b then _ else _] => destruct b
             end;
      intros Heq; inversion Heq; subst; (split; [lia|]); auto 6.
Qed.

(** Two against two on both kinds of queue: from the top of the loop with
    no emergency the controller opens [FLUXO_NS]; resumed in the draining
    loop of the emergency branch it opens [AMBULANCIA_NS]. *)
Lemma desempate_norte_sul_witness :
  (exists e pc',
     fluxo_trafego FluxoInicio
       (mkCruzamento [1; 1; 2; 0] [0; 2; 1; 1] 0 0 false FLUXO_LO)
     = (set_estado_atual
          (mkCruzamento [1; 1; 2; 0] [0; 2; 1; 1] 0 0 false FLUXO_LO) e,
        pc', Some e)
     /\ e = FLUXO_NS)
  /\ (exists e pc',
        fluxo_trafego FluxoDrenaEmergencia
          (mkCruzamento [1; 1; 2; 0] [0; 2; 1; 1] 0 0 true FLUXO_LO)
        = (set_estado_atual
             (mkCruzamento [1; 1; 2; 0] [0; 2; 1; 1] 0 0 true FLUXO_LO) e,
           pc', Some e)
        /\ e = AMBULANCIA_NS).
Proof.
  split.
  - destruct (proj1 (desempate_norte_sul FluxoInicio
                       (mkCruzamento [1; 1; 2; 0] [0; 2; 1; 1] 0 0 false FLUXO_LO)))
      as (e & pc' & Hf & _ & _ & Ht & _).
    + right. split; reflexivity.
    + simpl. lia.
    + exists e, pc'. split; [exact Hf|]. apply Ht. reflexivity.
  - destruct (proj1 (proj2 (desempate_norte_sul FluxoDrenaEmergencia
                              (mkCruzamento [1; 1; 2; 0] [0; 2; 1; 1] 0 0 true FLUXO_LO))))
      as (e & pc' & Hf & _ & _ & Ht).
    + left. reflexivity.
    + simpl. lia.
    + exists e, pc'. split; [exact Hf|]. apply Ht. reflexivity.
Defined.

(** The value the controller assigns is the choice of the branch taken. *)
Lemma fluxo_trafego_atribui pc c c' pc' e :
  fluxo_trafego pc c = (c', pc', Some e) ->
  e = proximo_estado_emergencia c \/ e = fst (proximo_estado_normal c).
Proof.
  unfold fluxo_trafego, fluxo_emergencia, fluxo_normal.
  destruct (proximo_estado_normal c) as [p n] eqn:Hp.
  destruct pc; repeat match goal with
                      | |- context [if ?b then _ else _] => destruct b
                      end;
    intros H; inversion H; subst; auto.
Qed.

(** ** The exit of an ambulance *)

(** C8. The critical section an ambulance runs when it leaves the
    intersection clears [modo_emergencia], in every state: whatever the
    numbers of ambulances still waiting or still crossing. *)
Theorem ambulancia_sai_limpa_emergencia (dir : Z) (c : Cruzamento) :
  modo_emergencia (fst (ambulancia dir AmbulanciaCruzando c)) = false
  /\ snd (ambulancia dir AmbulanciaCruzando c) = AmbulanciaChegando
  /\ ambulancias_no_cruzamento (fst (ambulancia dir AmbulanciaCruzando c))
     = ambulancias_no_cruzamento c - 1
  /\ ambulancias_esperando (fst (ambulancia dir AmbulanciaCruzando c))
     = ambulancias_esperando c.
Proof. repeat split. Qed.

(** ** Executions *)

Lemma executa_alcancavel ts : forall s s', executa ts s = Some s' -> alcancavel s s'.
Proof.
  induction ts as [|t ts IH]; intros s s' H; simpl in H.
  - inversion H; subst. apply rtc_refl.
  - destruct (passo t s) as [s1|] eqn:Hp; [|discriminate].
    eapply rtc_l; [exists t; exact Hp | apply IH; exact H].
Qed.

(** A property that holds initially and is kept by every critical section
    holds in every reachable state. *)
Lemma alcancavel_ind (P : Sistema -> Prop) s0 :
  P s0 ->
  (forall s t s', P s -> passo t s = Some s' -> P s') ->
  forall s, alcancavel s0 s -> P s.
Proof.
  intros H0 Hstep s Hr. induction Hr as [|s1 s2 s3 [t Ht] _ IH]; [exact H0|].
  apply IH. eapply Hstep; eauto.
Qed.

(** *** What each thread writes *)

Lemma fluxo_trafego_escreve pc c :
  match fluxo_trafego pc c with
  | (c', _, Some e) => carros_no_cruzamento c <= 0 /\ c' = set_estado_atual c e
  | (c', _, None) => c' = c
  end.
Proof.
  unfold fluxo_trafego, fluxo_emergencia, fluxo_normal.
  destruct (proximo_estado_normal c) as [p n].
  destruct (Z.gtb_spec (carros_no_cruzamento c) 0);
    destruct pc; repeat match goal with
                        | |- context [if ?b then _ else _] => destruct b
                        end; auto.
Qed.

Lemma carros_escreve d pc c :
  estado_atual (fst (carros d pc c)) = estado_atual c
  /\ modo_emergencia (fst (carros d pc c)) = modo_emergencia c
  /\ ambulancias_no_cruzamento (fst (carros d pc c)) = ambulancias_no_cruzamento c
  /\ carros_no_cruzamento (fst (carros d pc c))
     = carros_no_cruzamento c - peso (carro_cruzando (d, pc))
       + peso (carro_cruzando (d, snd (carros d pc c))).
Proof.
  destruct pc; unfold carros, carros_tenta_entrar;
    repeat match goal with
           | |- context [if ?b then _ else _] => destruct b
           end; cbn; repeat split; lia.
Qed.

Lemma carros_entra d pc c :
  pc <> CarroCruzando -> snd (carros d pc c) = CarroCruzando ->
  estado_normal (estado_atual c) /\ modo_emergencia c = false
  /\ eixo_direcao d = eixo_estado (estado_atual c).
Proof.
  intros Hpc. destruct pc; [| |congruence]; unfold carros, carros_tenta_entrar;
    match goal with
    | |- context [pode_passar ?c' ?d' ?e' ?t' =? 0] =>
        destruct (Z.eqb_spec (pode_passar c' d' e' t') 0) as [|Hp]
    end; cbn; try discriminate; intros _;
    apply pode_passar_carro in Hp; exact Hp.
Qed.

Lemma ambulancia_escreve d pc c :
  estado_atual (fst (ambulancia d pc c)) = estado_atual c
  /\ carros_no_cruzamento (fst (ambulancia d pc c)) = carros_no_cruzamento c
  /\ carros_esperando (fst (ambulancia d pc c)) = carros_esperando c.
Proof.
  destruct pc; unfold ambulancia, ambulancia_tenta_entrar;
    repeat match goal with
           | |- context [if ?b then _ else _] => destruct b
           end; cbn; repeat split.
Qed.

(** *** Counting the cars inside the intersection *)

Lemma conta_nao_negativo {A} (p : A -> bool) l : 0 <= conta p l.
Proof. induction l as [|x l IH]; simpl; [lia|]. destruct (p x); lia. Qed.

Lemma conta_insert {A} (p : A -> bool) (l : list A) : forall i x y,
  l !! i = Some x ->
  conta p (<[i := y]> l) = conta p l - peso (p x) + peso (p y).
Proof.
  induction l as [|a l IH]; intros i x y H; [discriminate|].
  destruct i as [|i]; simpl in *.
  - inversion H; subst. unfold peso. destruct (p x), (p y); lia.
  - rewrite (IH i x y H). lia.
Qed.

Lemma conta_inicial (dcarros : list Z) :
  conta carro_cruzando (map (fun d => (d, CarroAproximando)) dcarros) = 0.
Proof. induction dcarros as [|d l IH]; simpl; [reflexivity|]. rewrite IH. reflexivity. Qed.

Lemma inv_contagem_passo s t s' :
  inv_contagem s -> passo t s = Some s' -> inv_contagem s'.
Proof.
  unfold inv_contagem. intros Hi Hp. destruct t as [|i|i]; simpl in Hp.
  - pose proof (fluxo_trafego_escreve (pc_fluxo s) (cruzamento s)) as Hw.
    destruct (fluxo_trafego (pc_fluxo s) (cruzamento s)) as [[c pc] [e|]];
      inversion Hp; subst; simpl.
    + destruct Hw as [_ ->]. exact Hi.
    + exact Hi.
  - destruct (th_carros s !! i) as [[d pc]|] eqn:Hl; [|discriminate].
    pose proof (carros_escreve d pc (cruzamento s)) as (_ & _ & _ & Hc).
    destruct (carros d pc (cruzamento s)) as [c pc'].
    inversion Hp; subst; simpl in *.
    rewrite (conta_insert carro_cruzando _ i (d, pc) (d, pc') Hl). lia.
  - destruct (th_ambulancias s !! i) as [[d pc]|] eqn:Hl; [|discriminate].
    pose proof (ambulancia_escreve d pc (cruzamento s)) as (_ & Hc & _).
    destruct (ambulancia d pc (cruzamento s)) as [c pc'].
    inversion Hp; subst; simpl in *. lia.
Qed.

Lemma alcancavel_contagem dcarros dambulancias s :
  alcancavel (inicial dcarros dambulancias) s -> inv_contagem s.
Proof.
  apply alcancavel_ind.
  - unfold inv_contagem. simpl. rewrite conta_inicial. reflexivity.
  - intros s1 t s2. apply inv_contagem_passo.
Qed.

(** *** Cars cross under a normal selector *)

Lemma inv_carros_normal_passo s t s' :
  inv_carros_normal s -> passo t s = Some s' -> inv_carros_normal s'.
Proof.
  unfold inv_carros_normal. intros Hi Hp. destruct t as [|i|i]; simpl in Hp.
  - pose proof (fluxo_trafego_escreve (pc_fluxo s) (cruzamento s)) as Hw.
    destruct (fluxo_trafego (pc_fluxo s) (cruzamento s)) as [[c pc] [e|]];
      inversion Hp; subst; simpl.
    + destruct Hw as [Hz ->]. simpl. lia.
    + exact Hi.
  - destruct (th_carros s !! i) as [[d pc]|] eqn:Hl; [|discriminate].
    pose proof (carros_escreve d pc (cruzamento s)) as (He & _ & _ & Hc).
    pose proof (carros_entra d pc (cruzamento s)) as Hin.
    destruct (carros d pc (cruzamento s)) as [c pc'].
    inversion Hp; subst; simpl in *. rewrite He. intros Hpos.
    destruct pc'.
    + apply Hi. destruct pc; simpl in Hc; lia.
    + apply Hi. destruct pc; simpl in Hc; lia.
    + destruct pc.
      * apply Hin; [discriminate | reflexivity].
      * apply Hin; [discriminate | reflexivity].
      * apply Hi. simpl in Hc. lia.
  - destruct (th_ambulancias s !! i) as [[d pc]|] eqn:Hl; [|discriminate].
    pose proof (ambulancia_escreve d pc (cruzamento s)) as (He & Hc & _).
    destruct (ambulancia d pc (cruzamento s)) as [c pc'].
    inversion Hp; subst; simpl in *. rewrite He, Hc. exact Hi.
Qed.

Lemma alcancavel_carros_normal dcarros dambulancias s :
  alcancavel (inicial dcarros dambulancias) s -> inv_carros_normal s.
Proof.
  apply alcancavel_ind.
  - unfold inv_carros_normal. simpl. lia.
  - intros s1 t s2. apply inv_carros_normal_passo.
Qed.

Lemma apos_alcancavel ts : alcancavel main (apos ts).
Proof.
  unfold apos. destruct (executa ts main) as [s|] eqn:He.
  - apply executa_alcancavel with (ts := ts). exact He.
  - apply rtc_refl.
Qed.

(** ** Invariants of the reachable states *)

(** C9. In every reachable state, a critical section of the controller that
    assigns [estado_atual] starts with [carros_no_cruzamento] = 0 (its
    draining loop has just been left with the lock held) and writes nothing
    else; a section without the assignment leaves the shared state as it
    is.  Hence any transition of the program that changes [estado_atual]
    starts from a state with no car inside the intersection. *)
Theorem fluxo_trafego_drena_antes_de_trocar
    (dcarros dambulancias : list Z) (s : Sistema) :
  alcancavel (inicial dcarros dambulancias) s ->
  match fluxo_trafego (pc_fluxo s) (cruzamento s) with
  | (c, _, Some e) =>
      carros_no_cruzamento (cruzamento s) = 0
      /\ c = set_estado_atual (cruzamento s) e
  | (c, _, None) => c = cruzamento s
  end
  /\ (forall s', step s s' ->
        estado_atual (cruzamento s') <> estado_atual (cruzamento s) ->
        carros_no_cruzamento (cruzamento s) = 0).
Proof.
  intros Hr. apply alcancavel_contagem in Hr. unfold inv_contagem in Hr.
  pose proof (conta_nao_negativo carro_cruzando (th_carros s)) as Hn.
  pose proof (fluxo_trafego_escreve (pc_fluxo s) (cruzamento s)) as Hw.
  split.
  - destruct (fluxo_trafego (pc_fluxo s) (cruzamento s)) as [[c pc] [e|]];
      [|exact Hw].
    destruct Hw as [Hz Hc]. split; [lia | exact Hc].
  - intros s' [t Hp] Hne. destruct t as [|i|i]; simpl in Hp.
    + destruct (fluxo_trafego (pc_fluxo s) (cruzamento s)) as [[c pc] [e|]];
        inversion Hp; subst; simpl in *.
      * lia.
      * congruence.
    + destruct (th_carros s !! i) as [[d pc]|]; [|discriminate].
      pose proof (carros_escreve d pc (cruzamento s)) as (He & _).
      destruct (carros d pc (cruzamento s)) as [c pc'].
      inversion Hp; subst; simpl in *. congruence.
    + destruct (th_ambulancias s !! i) as [[d pc]|]; [|discriminate].
      pose proof (ambulancia_escreve d pc (cruzamento s)) as (He & _).
      destruct (ambulancia d pc (cruzamento s)) as [c pc'].
      inversion Hp; subst; simpl in *. congruence.
Qed.

(** A car enters, the controller finds it and waits in its draining loop,
    the car leaves: the controller's next section makes the assignment. *)
Lemma fluxo_trafego_drena_antes_de_trocar_witness :
  match fluxo_trafego (pc_fluxo (apos [ThCarro 0; ThFluxo; ThCarro 0]))
          (cruzamento (apos [ThCarro 0; ThFluxo; ThCarro 0])) with
  | (c, _, Some e) =>
      carros_no_cruzamento (cruzamento (apos [ThCarro 0; ThFluxo; ThCarro 0])) = 0
      /\ c = set_estado_atual (cruzamento (apos [ThCarro 0; ThFluxo; ThCarro 0])) e
  | (c, _, None) => c = cruzamento (apos [ThCarro 0; ThFluxo; ThCarro 0])
  end
  /\ (forall s', step (apos [ThCarro 0; ThFluxo; ThCarro 0]) s' ->
        estado_atual (cruzamento s')
        <> estado_atual (cruzamento (apos [ThCarro 0; ThFluxo; ThCarro 0])) ->
        carros_no_cruzamento (cruzamento (apos [ThCarro 0; ThFluxo; ThCarro 0])) = 0).
Proof.
  apply (fluxo_trafego_drena_antes_de_trocar main_carros main_ambulancias
           (apos [ThCarro 0; ThFluxo; ThCarro 0])).
  apply executa_alcancavel with (ts := [ThCarro 0; ThFluxo; ThCarro 0]).
  vm_compute. reflexivity.
Defined.

(** C4, as the code has it. In every reachable state, a positive
    [carros_no_cruzamento] implies that [estado_atual] is [FLUXO_NS] or
    [FLUXO_LO].  (Nothing is said of [modo_emergencia]: an ambulance sets it
    while cars are still crossing, and the controller then waits for them.) *)
Theorem carros_cruzam_em_fluxo_normal
    (dcarros dambulancias : list Z) (s : Sistema) :
  alcancavel (inicial dcarros dambulancias) s ->
  carros_no_cruzamento (cruzamento s) > 0 ->
  estado_normal (estado_atual (cruzamento s)).
Proof. intros Hr. apply (alcancavel_carros_normal _ _ _ Hr). Qed.

Lemma carros_cruzam_em_fluxo_normal_witness :
  estado_normal (estado_atual (cruzamento (apos [ThCarro 0; ThAmbulancia 0]))).
Proof.
  apply (carros_cruzam_em_fluxo_normal main_carros main_ambulancias
           (apos [ThCarro 0; ThAmbulancia 0])).
  - apply executa_alcancavel with (ts := [ThCarro 0; ThAmbulancia 0]).
    vm_compute. reflexivity.
  - vm_compute. reflexivity.
Defined.

(** C4 as stated fails: after a car from the North has entered under the
    initial [FLUXO_NS] and an ambulance has announced itself, a car is
    inside the intersection and [modo_emergencia] is set. *)
Lemma carros_cruzam_com_emergencia_declarada :
  ~ (forall s, alcancavel main s ->
       carros_no_cruzamento (cruzamento s) > 0 ->
       estado_normal (estado_atual (cruzamento s))
       /\ modo_emergencia (cruzamento s) = false).
Proof.
  intros H.
  destruct (H (apos [ThCarro 0; ThAmbulancia 0])) as [_ Hm].
  - apply apos_alcancavel.
  - vm_compute. reflexivity.
  - vm_compute in Hm. discriminate Hm.
Qed.

(** *** Cars of the two axes never cross together *)

Lemma conta_lookup {A} (p : A -> bool) (l : list A) : forall i x,
  l !! i = Some x -> p x = true -> 1 <= conta p l.
Proof.
  induction l as [|a l IH]; intros i x H Hp; [discriminate|].
  destruct i as [|i]; simpl in *.
  - inversion H; subst. rewrite Hp.
    pose proof (conta_nao_negativo p l). lia.
  - specialize (IH i x H Hp). destruct (p a); lia.
Qed.

Lemma inv_carros_eixo_passo s t s' :
  inv_contagem s -> inv_carros_eixo s -> passo t s = Some s' ->
  inv_carros_eixo s'.
Proof.
  unfold inv_contagem, inv_carros_eixo. intros Hn Hi Hp.
  destruct t as [|j|j]; simpl in Hp.
  - pose proof (fluxo_trafego_escreve (pc_fluxo s) (cruzamento s)) as Hw.
    destruct (fluxo_trafego (pc_fluxo s) (cruzamento s)) as [[c pc] [e|]];
      inversion Hp; subst; simpl.
    + destruct Hw as [Hz _]. intros i d Hl.
      pose proof (conta_lookup carro_cruzando _ i (d, CarroCruzando) Hl eq_refl).
      lia.
    + exact Hi.
  - destruct (th_carros s !! j) as [[dj pc]|] eqn:Hl; [|discriminate].
    pose proof (carros_escreve dj pc (cruzamento s)) as (He & _).
    pose proof (carros_entra dj pc (cruzamento s)) as Hin.
    destruct (carros dj pc (cruzamento s)) as [c pc'].
    inversion Hp; subst; simpl in *. rewrite He. intros i d Hi'.
    destruct (decide (j = i)) as [->|Hji].
    + rewrite list_lookup_insert_eq in Hi'
        by (apply lookup_lt_Some in Hl; exact Hl).
      inversion Hi'; subst.
      destruct pc; [apply Hin | apply Hin | apply (Hi i d Hl)];
        solve [discriminate | reflexivity].
    + rewrite list_lookup_insert_ne in Hi' by exact Hji.
      apply (Hi i d Hi').
  - destruct (th_ambulancias s !! j) as [[d pc]|] eqn:Hl; [|discriminate].
    pose proof (ambulancia_escreve d pc (cruzamento s)) as (He & _).
    destruct (ambulancia d pc (cruzamento s)) as [c pc'].
    inversion Hp; subst; simpl in *. rewrite He. exact Hi.
Qed.

Lemma alcancavel_carros_eixo dcarros dambulancias s :
  alcancavel (inicial dcarros dambulancias) s ->
  inv_contagem s /\ inv_carros_eixo s.
Proof.
  apply (alcancavel_ind (fun s => inv_contagem s /\ inv_carros_eixo s)).
  - split.
    + unfold inv_contagem. simpl. rewrite conta_inicial. reflexivity.
    + intros i d Hl. simpl in Hl. rewrite list_lookup_fmap in Hl.
      destruct (dcarros !! i); simpl in Hl; inversion Hl.
  - intros s1 t s2 [Hn Hi] Hp. split.
    + eapply inv_contagem_passo; eauto.
    + eapply inv_carros_eixo_passo; eauto.
Qed.

(** Two cars that are inside the intersection in a reachable state came
    from the same axis. *)
Lemma carros_de_eixos_opostos_nao_cruzam dcarros dambulancias s i j di dj :
  alcancavel (inicial dcarros dambulancias) s ->
  th_carros s !! i = Some (di, CarroCruzando) ->
  th_carros s !! j = Some (dj, CarroCruzando) ->
  eixo_direcao di = eixo_direcao dj.
Proof.
  intros Hr Hi Hj. apply alcancavel_carros_eixo in Hr as [_ He].
  rewrite (He i di Hi), (He j dj Hj). reflexivity.
Qed.

(** C3 does not hold of the code. Two runs of the program of [main]:
    - a car from the North enters under the initial [FLUXO_NS]; an ambulance
      from the North announces itself and, since [pode_passar] lets an
      ambulance through under a normal selector of its axis, enters beside
      the car;
    - two ambulances from the East cross under [AMBULANCIA_LO]; the first to
      leave clears [modo_emergencia]; the controller, whose draining loops
      look at [carros_no_cruzamento] only, opens [FLUXO_NS] and a car from
      the North enters while the second ambulance is still crossing.
    In the final state of each, [carros_no_cruzamento] and
    [ambulancias_no_cruzamento] are both positive; in the second one both
    axes are occupied. *)
Theorem carro_e_ambulancia_cruzam_juntos :
  (exists s, executa escalonamento_mesmo_eixo main = Some s
             /\ alcancavel main s
             /\ carros_no_cruzamento (cruzamento s) > 0
             /\ ambulancias_no_cruzamento (cruzamento s) > 0)
  /\ (exists s, executa escalonamento_eixos_opostos main = Some s
                /\ alcancavel main s
                /\ carros_no_cruzamento (cruzamento s) > 0
                /\ ambulancias_no_cruzamento (cruzamento s) > 0
                /\ eixo_ocupado EixoNS s = true
                /\ eixo_ocupado EixoLO s = true).
Proof.
  split.
  - exists (apos escalonamento_mesmo_eixo).
    assert (He : executa escalonamento_mesmo_eixo main
                 = Some (apos escalonamento_mesmo_eixo))
      by (vm_compute; reflexivity).
    split; [exact He|]. split; [apply apos_alcancavel|].
    split; vm_compute; reflexivity.
  - exists (apos escalonamento_eixos_opostos).
    assert (He : executa escalonamento_eixos_opostos main
                 = Some (apos escalonamento_eixos_opostos))
      by (vm_compute; reflexivity).
    split; [exact He|]. split; [apply apos_alcancavel|].
    repeat split; vm_compute; reflexivity.
Qed.

(** * Further properties of the code *)

(** ** [pode_passar], completely *)

Lemma pode_passar_um (c : Cruzamento) (dir estado tipo : Z) :
  pode_passar c dir estado tipo = 1 <->
  (exists e, eixo_direcao dir = Some e /\ eixo_estado estado = Some e)
  /\ (estado_ambulancia estado -> tipo = TIPO_AMBULANCIA)
  /\ (modo_emergencia c = true -> tipo <> TIPO_CARRO).
Proof.
  destruct c as [ce ae cn an me ea]. unfold pode_passar, modo_emergencia.
  assert (Hd : forall b : bool, (if b then 0 else 1) = 1 <-> b = false)
    by (intros []; split; congruence).
  unfold eixo_direcao, eixo_estado, estado_ambulancia.
  destruct (Z.eqb_spec estado AMBULANCIA_NS) as [->|Hans];
    [|destruct (Z.eqb_spec estado AMBULANCIA_LO) as [->|Halo];
      [|destruct (Z.eqb_spec estado FLUXO_NS) as [->|Hfns];
        [|destruct (Z.eqb_spec estado FLUXO_LO) as [->|Hflo]]]];
    cbn [orb andb negb];
    change (AMBULANCIA_NS =? FLUXO_NS) with false;
    change (AMBULANCIA_LO =? FLUXO_NS) with false;
    change (AMBULANCIA_LO =? FLUXO_LO) with false;
    change (AMBULANCIA_LO =? AMBULANCIA_NS) with false;
    change (FLUXO_NS =? AMBULANCIA_NS) with false;
    change (FLUXO_LO =? AMBULANCIA_NS) with false;
    change (FLUXO_LO =? FLUXO_NS) with false;
    cbn [orb andb negb];
    destruct (Z.eqb_spec tipo TIPO_AMBULANCIA) as [->|Hta];
    try change (TIPO_AMBULANCIA =? TIPO_CARRO) with false;
    try destruct (Z.eqb_spec tipo TIPO_CARRO) as [->|Htc];
    destruct me; cbn [orb andb negb];
    destruct (Z.eqb_spec dir NORTE) as [->|Hn];
    try change (NORTE =? LESTE) with false;
    try change (NORTE =? OESTE) with false;
    cbn [orb andb negb];
    try (destruct (Z.eqb_spec dir SUL) as [->|Hs];
         try change (SUL =? LESTE) with false;
         try change (SUL =? OESTE) with false;
         cbn [orb andb negb]);
    try (destruct (Z.eqb_spec dir LESTE) as [->|Hl]; cbn [orb andb negb]);
    try (destruct (Z.eqb_spec dir OESTE) as [->|Ho]; cbn [orb andb negb]);
    (split;
     [ intros H; try discriminate H;
       repeat split; eauto; try congruence;
       try (intros [?|?]; congruence)
     | intros ([e [H1 H2]] & H3 & H4); try reflexivity; exfalso;
       try discriminate H1; try discriminate H2; try congruence;
       try (apply H4; reflexivity);
       try (assert (tipo = TIPO_AMBULANCIA) by (apply H3; auto); congruence);
       try (assert (TIPO_CARRO = TIPO_AMBULANCIA) by (apply H3; auto);
            discriminate) ]).
Qed.

(** [pode_passar] answers 1 exactly when the direction is one of the four
    and lies on the axis of the selector, an ambulance selector is only
    used by an ambulance, and no car goes while [modo_emergencia] is set.
    In particular an ambulance is judged by the axis alone: under a normal
    selector as under an ambulance selector, emergency declared or not. *)
Theorem pode_passar_caracterizacao (c : Cruzamento) (dir estado tipo : Z) :
  pode_passar c dir estado tipo = 1 <->
  (exists e, eixo_direcao dir = Some e /\ eixo_estado estado = Some e)
  /\ (estado_ambulancia estado -> tipo = TIPO_AMBULANCIA)
  /\ (modo_emergencia c = true -> tipo <> TIPO_CARRO).
Proof. apply pode_passar_um. Qed.

Lemma pode_passar_eixo c dir estado tipo :
  pode_passar c dir estado tipo <> 0 ->
  direcao_valida dir /\ eixo_direcao dir = eixo_estado estado.
Proof.
  intros H. destruct (pode_passar_0_ou_1 c dir estado tipo) as [H0|H1];
    [congruence|].
  apply pode_passar_um in H1 as ([e [Hd He]] & _ & _).
  split; [|congruence].
  unfold eixo_direcao, direcao_valida in *.
  destruct (Z.eqb_spec dir NORTE); [auto|].
  destruct (Z.eqb_spec dir SUL); [auto|].
  destruct (Z.eqb_spec dir LESTE); [auto|].
  destruct (Z.eqb_spec dir OESTE); [auto|].
  discriminate Hd.
Qed.

(** ** Entering the intersection *)

(** A vehicle thread whose critical section takes it into the
    intersection has one of the four directions, on the axis that
    [estado_atual] opens at that moment; for a car, moreover, the selector
    is a normal one and no emergency is declared.  The section counts the
    vehicle in and leaves its waiting counter as it found it. *)
Theorem entrada_pelo_eixo_aberto (d : Z) (c : Cruzamento) :
  (forall pc, pc <> CarroCruzando -> snd (carros d pc c) = CarroCruzando ->
     direcao_valida d
     /\ eixo_direcao d = eixo_estado (estado_atual c)
     /\ estado_normal (estado_atual c) /\ modo_emergencia c = false
     /\ carros_no_cruzamento (fst (carros d pc c)) = carros_no_cruzamento c + 1)
  /\ (forall pc, pc = AmbulanciaAnunciada \/ pc = AmbulanciaEsperando ->
        snd (ambulancia d pc c) = AmbulanciaCruzando ->
        direcao_valida d
        /\ eixo_direcao d = eixo_estado (estado_atual c)
        /\ ambulancias_no_cruzamento (fst (ambulancia d pc c))
           = ambulancias_no_cruzamento c + 1).
Proof.
  split.
  - intros pc Hpc Hin.
    destruct (carros_entra d pc c Hpc Hin) as (Hn & He & Hx).
    pose proof (carros_escreve d pc c) as (_ & _ & _ & Hc).
    rewrite Hin in Hc.
    assert (Hv : direcao_valida d).
    { unfold eixo_direcao, direcao_valida in *.
      destruct Hn as [Hn|Hn]; rewrite Hn in Hx; cbn in Hx;
        destruct (Z.eqb_spec d NORTE); auto; destruct (Z.eqb_spec d SUL); auto;
        destruct (Z.eqb_spec d LESTE); auto; destruct (Z.eqb_spec d OESTE); auto;
        discriminate Hx. }
    repeat split; auto.
    destruct pc; [| |congruence]; cbn [carro_cruzando snd peso] in Hc; lia.
  - intros pc Hpc. unfold ambulancia, ambulancia_tenta_entrar.
    destruct Hpc as [-> | ->];
      match goal with
      | |- context [pode_passar ?c' ?d' ?e' ?t' =? 0] =>
          destruct (Z.eqb_spec (pode_passar c' d' e' t') 0) as [|Hp]
      end; cbn; try discriminate; intros _;
      apply pode_passar_eixo in Hp as [Hv He]; repeat split; auto.
Qed.

Lemma entrada_pelo_eixo_aberto_witness :
  direcao_valida LESTE
  /\ eixo_direcao LESTE = eixo_estado AMBULANCIA_LO
  /\ ambulancias_no_cruzamento
       (fst (ambulancia LESTE AmbulanciaEsperando
               (mkCruzamento [0; 0; 0; 0] [0; 0; 1; 0] 0 0 true AMBULANCIA_LO)))
     = 0 + 1.
Proof.
  apply (proj2 (entrada_pelo_eixo_aberto LESTE
                  (mkCruzamento [0; 0; 0; 0] [0; 0; 1; 0] 0 0 true AMBULANCIA_LO))
           AmbulanciaEsperando).
  - right; reflexivity.
  - reflexivity.
Defined.

(** While [modo_emergencia] is set, or while the selector is an ambulance
    selector, no critical section of any thread lets a car in:
    [carros_no_cruzamento] does not grow. *)
Theorem emergencia_nao_admite_carros (s s' : Sistema) (t : Thread) :
  passo t s = Some s' ->
  modo_emergencia (cruzamento s) = true
  \/ estado_ambulancia (estado_atual (cruzamento s)) ->
  carros_no_cruzamento (cruzamento s') <= carros_no_cruzamento (cruzamento s).
Proof.
  intros Hp Hem. destruct t as [|i|i]; simpl in Hp.
  - pose proof (fluxo_trafego_escreve (pc_fluxo s) (cruzamento s)) as Hw.
    destruct (fluxo_trafego (pc_fluxo s) (cruzamento s)) as [[c pc] [e|]];
      inversion Hp; subst; simpl.
    + destruct Hw as [_ ->]. simpl. lia.
    + lia.
  - destruct (th_carros s !! i) as [[d pc]|] eqn:Hl; [|discriminate].
    pose proof (carros_escreve d pc (cruzamento s)) as (_ & _ & _ & Hc).
    pose proof (carros_entra d pc (cruzamento s)) as Hin.
    destruct (carros d pc (cruzamento s)) as [c pc'].
    inversion Hp; subst; simpl in *.
    assert (Hno : pc <> CarroCruzando -> pc' <> CarroCruzando).
    { intros Hpc Hpc'. destruct (Hin Hpc Hpc') as (Hn & Hf & _).
      destruct Hem as [Hem|Hem]; [congruence|].
      destruct Hn as [Hn|Hn], Hem as [Hem|Hem]; rewrite Hn in Hem;
        discriminate Hem. }
    destruct pc; cbn [carro_cruzando snd peso] in Hc;
      try (assert (pc' <> CarroCruzando) by (apply Hno; discriminate);
           destruct pc'; [| |congruence]);
      cbn [carro_cruzando snd peso] in Hc; try lia.
    destruct pc'; cbn [carro_cruzando snd peso] in Hc; lia.
  - destruct (th_ambulancias s !! i) as [[d pc]|] eqn:Hl; [|discriminate].
    pose proof (ambulancia_escreve d pc (cruzamento s)) as (_ & Hc & _).
    destruct (ambulancia d pc (cruzamento s)) as [c pc'].
    inversion Hp; subst; simpl in *. lia.
Qed.

(** A car of the open axis arrives after an ambulance has announced
    itself: it stays out. *)
Lemma emergencia_nao_admite_carros_witness :
  carros_no_cruzamento
    (cruzamento (apos [ThCarro 20; ThCarro 0; ThAmbulancia 0; ThCarro 20; ThCarro 1]))
  <= carros_no_cruzamento
       (cruzamento (apos [ThCarro 20; ThCarro 0; ThAmbulancia 0; ThCarro 20])).
Proof.
  apply (emergencia_nao_admite_carros
           (apos [ThCarro 20; ThCarro 0; ThAmbulancia 0; ThCarro 20])
           (apos [ThCarro 20; ThCarro 0; ThAmbulancia 0; ThCarro 20; ThCarro 1])
           (ThCarro 1)).
  - vm_compute. reflexivity.
  - left. vm_compute. reflexivity.
Defined.

(** ** The simulated delays *)

(** [rand()] returns a value from 0 to [RAND_MAX]; a car then approaches
    for 2 to 9 seconds and an ambulance stays away for 30 to 59 seconds. *)
Theorem tempos_de_espera_limitados (r : Z) :
  0 <= r ->
  2 <= carros_tempo r <= 9 /\ 30 <= ambulancia_tempo r <= 59.
Proof.
  intros Hr. unfold carros_tempo, ambulancia_tempo.
  pose proof (Z.rem_bound_pos r 8 Hr ltac:(lia)).
  pose proof (Z.rem_bound_pos r 30 Hr ltac:(lia)). lia.
Qed.

Lemma tempos_de_espera_limitados_witness :
  2 <= carros_tempo 2147483647 <= 9 /\ 30 <= ambulancia_tempo 2147483647 <= 59.
Proof. apply (tempos_de_espera_limitados 2147483647). lia. Defined.

(** ** Arrays indexed by a direction *)

Lemma direcao_valida_indice d : direcao_valida d -> 0 <= d < 4.
Proof. unfold direcao_valida, NORTE, SUL, LESTE, OESTE. lia. Qed.

Lemma arr_get_set (a : list Z) d d' v :
  length a = 4%nat -> direcao_valida d -> direcao_valida d' ->
  arr_get (arr_set a d v) d' = if d =? d' then v else arr_get a d'.
Proof.
  intros Hl Hd Hd'. apply direcao_valida_indice in Hd, Hd'.
  unfold arr_get, arr_set. rewrite !nth_lookup.
  destruct (Z.eqb_spec d d') as [->|Hne].
  - rewrite list_lookup_insert_eq by lia. reflexivity.
  - rewrite list_lookup_insert_ne by lia. reflexivity.
Qed.

Lemma arr_set_length (a : list Z) d v : length (arr_set a d v) = length a.
Proof. unfold arr_set. apply length_insert. Qed.

(** ** The numbering of the vehicles *)

Lemma atribui_ids_lookup ds : forall contadores i d,
  length contadores = 4%nat -> Forall direcao_valida ds ->
  ds !! i = Some d ->
  atribui_ids contadores ds !! i
  = Some (d, arr_get contadores d + conta (fun d' => d' =? d) (take i ds)).
Proof.
  induction ds as [|a ds IH]; intros cont i d Hl Hv Hi; [discriminate|].
  inversion Hv as [|? ? Ha Hds]; subst.
  destruct i as [|i]; simpl in *.
  - inversion Hi; subst. f_equal. f_equal. lia.
  - assert (Hd : direcao_valida d).
    { eapply Forall_lookup_1; eauto. }
    rewrite (IH _ i d) by (rewrite ?arr_set_length; auto).
    rewrite arr_get_set by auto.
    destruct (Z.eqb_spec a d) as [->|Hne]; f_equal; f_equal; lia.
Qed.

Lemma atribui_ids_direcao ds : forall contadores i d id,
  atribui_ids contadores ds !! i = Some (d, id) -> ds !! i = Some d.
Proof.
  induction ds as [|a ds IH]; intros cont i d id H; [discriminate|].
  destruct i as [|i]; simpl in *.
  - inversion H; subst. reflexivity.
  - eapply IH; eauto.
Qed.

Lemma conta_take_lt (p : Z -> bool) ds : forall i j d,
  (i < j)%nat -> ds !! i = Some d -> p d = true ->
  conta p (take i ds) < conta p (take j ds).
Proof.
  induction ds as [|a ds IH]; intros i j d Hij Hi Hp; [discriminate|].
  destruct j as [|j]; [lia|]. destruct i as [|i]; simpl in *.
  - inversion Hi; subst. rewrite Hp.
    pose proof (conta_nao_negativo p (take j ds)). lia.
  - specialize (IH i j d ltac:(lia) Hi Hp). lia.
Qed.

(** Whatever the order in which the threads reach [lock_contadores_id],
    the thread of direction [d] that comes [k]-th among those of its
    direction gets the id [k] (counted from 1): no two vehicles of one kind
    and one direction share an id. *)
Theorem ids_unicos_por_direcao (ds : list Z) :
  Forall direcao_valida ds ->
  (forall i d, ds !! i = Some d ->
     atribui_ids contadores_id_inicial ds !! i
     = Some (d, 1 + conta (fun d' => d' =? d) (take i ds)))
  /\ NoDup (atribui_ids contadores_id_inicial ds).
Proof.
  intros Hv.
  assert (Hlk : forall i d, ds !! i = Some d ->
     atribui_ids contadores_id_inicial ds !! i
     = Some (d, 1 + conta (fun d' => d' =? d) (take i ds))).
  { intros i d Hi.
    rewrite (atribui_ids_lookup ds contadores_id_inicial i d eq_refl Hv Hi).
    assert (Hd : direcao_valida d).
    { eapply Forall_lookup_1; eauto. }
    unfold direcao_valida, NORTE, SUL, LESTE, OESTE in Hd.
    destruct Hd as [->|[->|[->| ->]]]; reflexivity. }
  split; [exact Hlk|].
  apply NoDup_alt. intros i j [d id] Hi Hj.
  pose proof (atribui_ids_direcao _ _ _ _ _ Hi) as Hdi.
  pose proof (atribui_ids_direcao _ _ _ _ _ Hj) as Hdj.
  rewrite (Hlk i d Hdi) in Hi. rewrite (Hlk j d Hdj) in Hj.
  inversion Hi as [Hidi]. inversion Hj as [Hidj].
  destruct (Nat.lt_trichotomy i j) as [Hlt|[Heq|Hlt]]; [|exact Heq|].
  - pose proof (conta_take_lt (fun d' => d' =? d) ds i j d Hlt Hdi
                  (Z.eqb_refl d)). lia.
  - pose proof (conta_take_lt (fun d' => d' =? d) ds j i d Hlt Hdj
                  (Z.eqb_refl d)). lia.
Qed.

(** The car threads of [main], the East ones first to the lock. *)
Lemma ids_unicos_por_direcao_witness :
  (forall i d, (replicate CARROS_LESTE LESTE ++ replicate CARROS_NORTE NORTE
                ++ replicate CARROS_OESTE OESTE ++ replicate CARROS_SUL SUL) !! i
               = Some d ->
     atribui_ids contadores_id_inicial
       (replicate CARROS_LESTE LESTE ++ replicate CARROS_NORTE NORTE
        ++ replicate CARROS_OESTE OESTE ++ replicate CARROS_SUL SUL) !! i
     = Some (d, 1 + conta (fun d' => d' =? d)
                      (take i (replicate CARROS_LESTE LESTE
                               ++ replicate CARROS_NORTE NORTE
                               ++ replicate CARROS_OESTE OESTE
                               ++ replicate CARROS_SUL SUL))))
  /\ NoDup (atribui_ids contadores_id_inicial
              (replicate CARROS_LESTE LESTE ++ replicate CARROS_NORTE NORTE
               ++ replicate CARROS_OESTE OESTE ++ replicate CARROS_SUL SUL)).
Proof.
  apply (ids_unicos_por_direcao
           (replicate CARROS_LESTE LESTE ++ replicate CARROS_NORTE NORTE
            ++ replicate CARROS_OESTE OESTE ++ replicate CARROS_SUL SUL)).
  vm_compute. repeat (constructor; [lia|]). constructor.
Defined.

(** ** The creation of the threads *)

Lemma cria_threads_spec n r d : forall idx,
  cria_threads n r d idx
  = (map (fun k => mkCriacao k r d) (seqZ idx (Z.of_nat n)), idx + Z.of_nat n).
Proof.
  induction n as [|n IH]; intros idx.
  - rewrite seqZ_nil by lia. cbn [cria_threads map]. f_equal. lia.
  - cbn [cria_threads]. rewrite IH. rewrite (seqZ_cons idx) by lia.
    replace (Z.pred (Z.of_nat (S n))) with (Z.of_nat n) by lia.
    replace (Z.succ idx) with (idx + 1) by lia.
    simpl map. f_equal. lia.
Qed.

Lemma direcoes_de_app r l1 l2 :
  direcoes_de r (l1 ++ l2) = direcoes_de r l1 ++ direcoes_de r l2.
Proof. unfold direcoes_de. rewrite List.filter_app, map_app. reflexivity. Qed.

Lemma direcoes_de_cria r r' d idx n :
  direcoes_de r (map (fun k => mkCriacao k r' d) (seqZ idx (Z.of_nat n)))
  = match r, r' with
    | RotinaCarros, RotinaCarros | RotinaAmbulancia, RotinaAmbulancia =>
        replicate n d
    | _, _ => []
    end.
Proof.
  revert idx. induction n as [|n IH]; intros idx.
  - rewrite seqZ_nil by lia. destruct r, r'; reflexivity.
  - rewrite (seqZ_cons idx) by lia.
    replace (Z.pred (Z.of_nat (S n))) with (Z.of_nat n) by lia.
    specialize (IH (Z.succ idx)). unfold direcoes_de in *.
    destruct r, r'; simpl in *; rewrite IH; reflexivity.
Qed.

(** For every value of the eight population macros, the creation loops
    of [main] fill the slots 0, 1, ..., total - 1 of [veiculos_t], each
    once and in this order, and leave [thread_idx] at the total: no
    [pthread_create] writes outside the array of [TOTAL_VEICULOS] handles
    and the joining loop of line 511 reads only handles that were written.
    The car threads get the directions North, South, East, West in blocks
    of the four car macros, the ambulance threads likewise. *)
Theorem main_cria_preenche_veiculos_t (cn cs cl co an as_ al ao : nat) :
  map cr_slot (fst (main_cria cn cs cl co an as_ al ao))
  = seqZ 0 (Z.of_nat (cn + cs + cl + co + (an + as_ + al + ao)))
  /\ snd (main_cria cn cs cl co an as_ al ao)
     = Z.of_nat (cn + cs + cl + co + (an + as_ + al + ao))
  /\ direcoes_de RotinaCarros (fst (main_cria cn cs cl co an as_ al ao))
     = replicate cn NORTE ++ replicate cs SUL
       ++ replicate cl LESTE ++ replicate co OESTE
  /\ direcoes_de RotinaAmbulancia (fst (main_cria cn cs cl co an as_ al ao))
     = replicate an NORTE ++ replicate as_ SUL
       ++ replicate al LESTE ++ replicate ao OESTE.
Proof.
  unfold main_cria. rewrite !cria_threads_spec. cbn [fst snd].
  split; [|split; [lia|split]].
  - rewrite !map_app, !map_map. cbn [cr_slot]. rewrite !map_id.
    rewrite !Nat2Z.inj_add.
    rewrite !seqZ_app by lia.
    rewrite <- !app_assoc.
    repeat match goal with
           | |- seqZ ?a ?n ++ _ = seqZ ?b ?n ++ _ =>
               replace a with b by lia; f_equal
           | |- seqZ ?a ?n = seqZ ?b ?n => replace a with b by lia; reflexivity
           end.
  - rewrite !direcoes_de_app, !direcoes_de_cria, !app_nil_r. reflexivity.
  - rewrite !direcoes_de_app, !direcoes_de_cria. reflexivity.
Qed.

(** With the macros of the source: the 41 threads of [main_carros] and
    [main_ambulancias]. *)
Lemma main_cria_populacao :
  direcoes_de RotinaCarros
    (fst (main_cria CARROS_NORTE CARROS_SUL CARROS_LESTE CARROS_OESTE
            AMBULANCIA_NORTE AMBULANCIA_SUL AMBULANCIA_LESTE AMBULANCIA_OESTE))
  = main_carros
  /\ direcoes_de RotinaAmbulancia
       (fst (main_cria CARROS_NORTE CARROS_SUL CARROS_LESTE CARROS_OESTE
               AMBULANCIA_NORTE AMBULANCIA_SUL AMBULANCIA_LESTE AMBULANCIA_OESTE))
     = main_ambulancias
  /\ snd (main_cria CARROS_NORTE CARROS_SUL CARROS_LESTE CARROS_OESTE
            AMBULANCIA_NORTE AMBULANCIA_SUL AMBULANCIA_LESTE AMBULANCIA_OESTE)
     = Z.of_nat TOTAL_VEICULOS
  /\ TOTAL_VEICULOS = 41%nat.
Proof. repeat split; vm_compute; reflexivity. Qed.

(** ** Accounting of the queues *)

Lemma carros_filas d pc c :
  length (carros_esperando c) = 4%nat -> direcao_valida d ->
  length (carros_esperando (fst (carros d pc c))) = 4%nat
  /\ ambulancias_esperando (fst (carros d pc c)) = ambulancias_esperando c
  /\ forall d', direcao_valida d' ->
       arr_get (carros_esperando (fst (carros d pc c))) d'
       = arr_get (carros_esperando c) d'
         - peso (carro_esperando_em d' (d, pc))
         + peso (carro_esperando_em d' (d, snd (carros d pc c))).
Proof.
  intros Hl Hd.
  destruct pc; unfold carros, carros_tenta_entrar;
    repeat match goal with
           | |- context [if ?b then _ else _] => destruct b
           end;
    cbn [fst snd carros_esperando ambulancias_esperando set_carros_esperando
         set_carros_no_cruzamento carro_esperando_em];
    (split; [rewrite ?arr_set_length; auto|]); (split; [reflexivity|]);
    intros d' Hd'; rewrite ?arr_get_set by (rewrite ?arr_set_length; auto);
    rewrite ?Z.eqb_refl;
    unfold peso, carro_esperando_em, ambulancia_esperando_em; cbn [fst snd];
    destruct (Z.eqb_spec d d') as [->|Hne]; cbn [andb]; lia.
Qed.

Lemma ambulancia_filas d pc c :
  length (ambulancias_esperando c) = 4%nat -> direcao_valida d ->
  length (ambulancias_esperando (fst (ambulancia d pc c))) = 4%nat
  /\ ambulancias_no_cruzamento (fst (ambulancia d pc c))
     = ambulancias_no_cruzamento c - peso (ambulancia_cruzando (d, pc))
       + peso (ambulancia_cruzando (d, snd (ambulancia d pc c)))
  /\ forall d', direcao_valida d' ->
       arr_get (ambulancias_esperando (fst (ambulancia d pc c))) d'
       = arr_get (ambulancias_esperando c) d'
         - peso (ambulancia_esperando_em d' (d, pc))
         + peso (ambulancia_esperando_em d' (d, snd (ambulancia d pc c))).
Proof.
  intros Hl Hd.
  destruct pc; unfold ambulancia, ambulancia_tenta_entrar, ambulancia_sai;
    repeat match goal with
           | |- context [if ?b then _ else _] => destruct b
           end;
    cbn [fst snd ambulancias_esperando ambulancias_no_cruzamento
         set_ambulancias_esperando set_ambulancias_no_cruzamento
         set_modo_emergencia ambulancia_esperando_em ambulancia_cruzando peso];
    (split; [rewrite ?arr_set_length; auto|]); (split; [lia|]);
    intros d' Hd'; rewrite ?arr_get_set by (rewrite ?arr_set_length; auto);
    rewrite ?Z.eqb_refl;
    unfold peso, carro_esperando_em, ambulancia_esperando_em; cbn [fst snd];
    destruct (Z.eqb_spec d d') as [->|Hne]; cbn [andb]; lia.
Qed.

Lemma map_fst_insert {A} (l : list (Z * A)) i d x y :
  l !! i = Some (d, x) -> map fst (<[i := (d, y)]> l) = map fst l.
Proof.
  intros Hl. change (map fst) with (fmap (M := list) (@fst Z A)).
  rewrite list_fmap_insert. apply list_insert_id.
  rewrite list_lookup_fmap, Hl. reflexivity.
Qed.

Lemma lookup_direcao {A} (l : list (Z * A)) ds i d x :
  map fst l = ds -> Forall direcao_valida ds -> l !! i = Some (d, x) ->
  direcao_valida d.
Proof.
  intros Hm Hv Hl. apply (Forall_lookup_1 _ _ i d Hv).
  rewrite <- Hm. change (map fst) with (fmap (M := list) (@fst Z A)).
  rewrite list_lookup_fmap, Hl. reflexivity.
Qed.

Lemma conta_zero {A} (p : A -> bool) l :
  (forall x, x ∈ l -> p x = false) -> conta p l = 0.
Proof.
  induction l as [|a l IH]; intros H; simpl; [reflexivity|].
  rewrite (H a) by (left). rewrite IH; [reflexivity|].
  intros x Hx. apply H. right. exact Hx.
Qed.

Lemma inv_filas_passo dcarros dambulancias s t s' :
  Forall direcao_valida dcarros -> Forall direcao_valida dambulancias ->
  inv_filas dcarros dambulancias s -> passo t s = Some s' ->
  inv_filas dcarros dambulancias s'.
Proof.
  intros Hvc Hva (Hlc & Hla & Hmc & Hma & Hc & Ha & Hn) Hp.
  destruct t as [|i|i]; simpl in Hp.
  - pose proof (fluxo_trafego_escreve (pc_fluxo s) (cruzamento s)) as Hw.
    destruct (fluxo_trafego (pc_fluxo s) (cruzamento s)) as [[c pc] [e|]];
      inversion Hp; subst; [destruct Hw as [_ ->]|];
      repeat split; auto.
  - destruct (th_carros s !! i) as [[d pc]|] eqn:Hl; [|discriminate].
    pose proof (lookup_direcao _ _ _ _ _ Hmc Hvc Hl) as Hd.
    pose proof (carros_filas d pc (cruzamento s) Hlc Hd) as (Hlc' & Hae & Hce).
    pose proof (carros_escreve d pc (cruzamento s)) as (_ & _ & Han & _).
    destruct (carros d pc (cruzamento s)) as [c pc'].
    inversion Hp; subst; cbn [fst snd] in *. unfold inv_filas; simpl.
    repeat split; auto; try congruence.
    + rewrite (map_fst_insert _ _ _ _ _ Hl). reflexivity.
    + intros d' Hd'. rewrite (Hce d' Hd'), (Hc d' Hd').
      rewrite (conta_insert _ _ i (d, pc) (d, pc') Hl). reflexivity.
    + intros d' Hd'. rewrite Hae. apply Ha. exact Hd'.
  - destruct (th_ambulancias s !! i) as [[d pc]|] eqn:Hl; [|discriminate].
    pose proof (lookup_direcao _ _ _ _ _ Hma Hva Hl) as Hd.
    pose proof (ambulancia_filas d pc (cruzamento s) Hla Hd) as (Hla' & Hn' & Hae).
    pose proof (ambulancia_escreve d pc (cruzamento s)) as (_ & _ & Hce).
    destruct (ambulancia d pc (cruzamento s)) as [c pc'].
    inversion Hp; subst; cbn [fst snd] in *. unfold inv_filas; simpl.
    repeat split; auto; try congruence.
    + rewrite (map_fst_insert _ _ _ _ _ Hl). reflexivity.
    + intros d' Hd'. rewrite Hce. apply Hc. exact Hd'.
    + intros d' Hd'. rewrite (Hae d' Hd'), (Ha d' Hd').
      rewrite (conta_insert _ _ i (d, pc) (d, pc') Hl). reflexivity.
    + rewrite Hn', Hn.
      rewrite (conta_insert _ _ i (d, pc) (d, pc') Hl). reflexivity.
Qed.

Lemma inv_filas_inicial dcarros dambulancias :
  inv_filas dcarros dambulancias (inicial dcarros dambulancias).
Proof.
  unfold inv_filas, inicial; simpl.
  repeat split.
  - rewrite map_map. apply map_id.
  - rewrite map_map. apply map_id.
  - intros d Hd. rewrite conta_zero.
    + apply direcao_valida_indice in Hd. unfold arr_get.
      destruct (Z.to_nat d) as [|[|[|[|n]]]] eqn:E; simpl; try reflexivity; lia.
    + intros x Hx. apply list_elem_of_fmap in Hx as [y [-> _]].
      unfold carro_esperando_em. simpl. apply andb_false_r.
  - intros d Hd. rewrite conta_zero.
    + apply direcao_valida_indice in Hd. unfold arr_get.
      destruct (Z.to_nat d) as [|[|[|[|n]]]] eqn:E; simpl; try reflexivity; lia.
    + intros x Hx. apply list_elem_of_fmap in Hx as [y [-> _]].
      unfold ambulancia_esperando_em. simpl. apply andb_false_r.
  - rewrite conta_zero; [reflexivity|].
    intros x Hx. apply list_elem_of_fmap in Hx as [y [-> _]]. reflexivity.
Qed.

Lemma alcancavel_filas dcarros dambulancias s :
  Forall direcao_valida dcarros -> Forall direcao_valida dambulancias ->
  alcancavel (inicial dcarros dambulancias) s ->
  inv_filas dcarros dambulancias s.
Proof.
  intros Hvc Hva. apply alcancavel_ind.
  - apply inv_filas_inicial.
  - intros s1 t s2. apply inv_filas_passo; assumption.
Qed.

(** In every reachable state of a program whose threads have valid
    directions: each cell of [carros_esperando] ([ambulancias_esperando])
    is the number of car (ambulance) threads of that direction that are
    inside their waiting loop, and [carros_no_cruzamento]
    ([ambulancias_no_cruzamento]) is the number of car (ambulance) threads
    between their entry and their exit. *)
Theorem filas_contam_threads (dcarros dambulancias : list Z) (s : Sistema) :
  Forall direcao_valida dcarros -> Forall direcao_valida dambulancias ->
  alcancavel (inicial dcarros dambulancias) s ->
  (forall d, direcao_valida d ->
     arr_get (carros_esperando (cruzamento s)) d
     = conta (carro_esperando_em d) (th_carros s)
     /\ arr_get (ambulancias_esperando (cruzamento s)) d
        = conta (ambulancia_esperando_em d) (th_ambulancias s))
  /\ carros_no_cruzamento (cruzamento s) = conta carro_cruzando (th_carros s)
  /\ ambulancias_no_cruzamento (cruzamento s)
     = conta ambulancia_cruzando (th_ambulancias s).
Proof.
  intros Hvc Hva Hr.
  pose proof (alcancavel_contagem _ _ _ Hr) as Hcnt.
  destruct (alcancavel_filas _ _ _ Hvc Hva Hr)
    as (_ & _ & Hmc & Hma & Hc & Ha & Hn).
  repeat split; auto.
Qed.

Lemma main_direcoes_validas :
  Forall direcao_valida main_carros /\ Forall direcao_valida main_ambulancias.
Proof.
  split; vm_compute; repeat (constructor; [lia|]); constructor.
Qed.

(** Two East cars wait under the initial [FLUXO_NS], a North car is
    inside, two ambulances have announced themselves and one of them, from
    the East, waits. *)
Lemma filas_contam_threads_witness :
  (forall d, direcao_valida d ->
     arr_get (carros_esperando (cruzamento
        (apos [ThCarro 18; ThCarro 19; ThCarro 0; ThAmbulancia 3;
               ThAmbulancia 6; ThAmbulancia 3]))) d
     = conta (carro_esperando_em d) (th_carros
        (apos [ThCarro 18; ThCarro 19; ThCarro 0; ThAmbulancia 3;
               ThAmbulancia 6; ThAmbulancia 3]))
     /\ arr_get (ambulancias_esperando (cruzamento
          (apos [ThCarro 18; ThCarro 19; ThCarro 0; ThAmbulancia 3;
                 ThAmbulancia 6; ThAmbulancia 3]))) d
        = conta (ambulancia_esperando_em d) (th_ambulancias
            (apos [ThCarro 18; ThCarro 19; ThCarro 0; ThAmbulancia 3;
                   ThAmbulancia 6; ThAmbulancia 3])))
  /\ carros_no_cruzamento (cruzamento
       (apos [ThCarro 18; ThCarro 19; ThCarro 0; ThAmbulancia 3;
              ThAmbulancia 6; ThAmbulancia 3]))
     = conta carro_cruzando (th_carros
         (apos [ThCarro 18; ThCarro 19; ThCarro 0; ThAmbulancia 3;
                ThAmbulancia 6; ThAmbulancia 3]))
  /\ ambulancias_no_cruzamento (cruzamento
       (apos [ThCarro 18; ThCarro 19; ThCarro 0; ThAmbulancia 3;
              ThAmbulancia 6; ThAmbulancia 3]))
     = conta ambulancia_cruzando (th_ambulancias
         (apos [ThCarro 18; ThCarro 19; ThCarro 0; ThAmbulancia 3;
                ThAmbulancia 6; ThAmbulancia 3])).
Proof.
  apply (filas_contam_threads main_carros main_ambulancias
           (apos [ThCarro 18; ThCarro 19; ThCarro 0; ThAmbulancia 3;
                  ThAmbulancia 6; ThAmbulancia 3])).
  - vm_compute; repeat (constructor; [lia|]); constructor.
  - vm_compute; repeat (constructor; [lia|]); constructor.
  - apply executa_alcancavel
      with (ts := [ThCarro 18; ThCarro 19; ThCarro 0; ThAmbulancia 3;
                   ThAmbulancia 6; ThAmbulancia 3]).
    vm_compute. reflexivity.
Defined.

(** *** Bounds of the counters *)

Lemma conta_limite {A} (p : A -> bool) l : conta p l <= Z.of_nat (length l).
Proof. induction l as [|x l IH]; simpl length; simpl conta; [lia|]. destruct (p x); lia. Qed.

Lemma conta_carros_soma (l : list (Z * PcCarro)) :
  conta (carro_esperando_em NORTE) l + conta (carro_esperando_em SUL) l
  + conta (carro_esperando_em LESTE) l + conta (carro_esperando_em OESTE) l
  + conta carro_cruzando l <= Z.of_nat (length l).
Proof.
  induction l as [|[d pc] l IH]; simpl length; simpl conta; [lia|].
  unfold carro_esperando_em, carro_cruzando, NORTE, SUL, LESTE, OESTE in *.
  cbn [fst snd] in *.
  destruct pc; destruct (Z.eqb_spec d 0); destruct (Z.eqb_spec d 1);
    destruct (Z.eqb_spec d 2); destruct (Z.eqb_spec d 3); cbn [andb]; lia.
Qed.

Lemma conta_ambulancias_soma (l : list (Z * PcAmbulancia)) :
  conta (ambulancia_esperando_em NORTE) l + conta (ambulancia_esperando_em SUL) l
  + conta (ambulancia_esperando_em LESTE) l
  + conta (ambulancia_esperando_em OESTE) l
  + conta ambulancia_cruzando l <= Z.of_nat (length l).
Proof.
  induction l as [|[d pc] l IH]; simpl length; simpl conta; [lia|].
  unfold ambulancia_esperando_em, ambulancia_cruzando, NORTE, SUL, LESTE, OESTE in *.
  cbn [fst snd] in *.
  destruct pc; destruct (Z.eqb_spec d 0); destruct (Z.eqb_spec d 1);
    destruct (Z.eqb_spec d 2); destruct (Z.eqb_spec d 3); cbn [andb]; lia.
Qed.

Lemma direcoes_validas_todas :
  direcao_valida NORTE /\ direcao_valida SUL
  /\ direcao_valida LESTE /\ direcao_valida OESTE.
Proof. unfold direcao_valida. auto 10. Qed.

Lemma alcancavel_limites dcarros dambulancias s :
  Forall direcao_valida dcarros -> Forall direcao_valida dambulancias ->
  alcancavel (inicial dcarros dambulancias) s ->
  (forall d, direcao_valida d ->
     0 <= arr_get (carros_esperando (cruzamento s)) d
     /\ 0 <= arr_get (ambulancias_esperando (cruzamento s)) d)
  /\ 0 <= carros_no_cruzamento (cruzamento s)
  /\ 0 <= ambulancias_no_cruzamento (cruzamento s)
  /\ demanda_ns (cruzamento s) + demanda_lo (cruzamento s)
     + carros_no_cruzamento (cruzamento s) <= Z.of_nat (length dcarros)
  /\ demanda_amb_ns (cruzamento s) + demanda_amb_lo (cruzamento s)
     + ambulancias_no_cruzamento (cruzamento s)
     <= Z.of_nat (length dambulancias).
Proof.
  intros Hvc Hva Hr.
  pose proof (alcancavel_contagem _ _ _ Hr) as Hcnt. unfold inv_contagem in Hcnt.
  destruct (alcancavel_filas _ _ _ Hvc Hva Hr)
    as (_ & _ & Hmc & Hma & Hc & Ha & Hn).
  destruct direcoes_validas_todas as (HN & HS & HL & HO).
  split; [|split; [|split; [|split]]].
  - intros d Hd. rewrite (Hc d Hd), (Ha d Hd).
    split; apply conta_nao_negativo.
  - rewrite Hcnt. apply conta_nao_negativo.
  - rewrite Hn. apply conta_nao_negativo.
  - unfold demanda_ns, demanda_lo.
    rewrite (Hc _ HN), (Hc _ HS), (Hc _ HL), (Hc _ HO), Hcnt.
    pose proof (conta_carros_soma (th_carros s)) as Hs.
    rewrite <- Hmc, length_map. lia.
  - unfold demanda_amb_ns, demanda_amb_lo.
    rewrite (Ha _ HN), (Ha _ HS), (Ha _ HL), (Ha _ HO), Hn.
    pose proof (conta_ambulancias_soma (th_ambulancias s)) as Hs.
    rewrite <- Hma, length_map. lia.
Qed.

(** In every reachable state of a program whose threads have valid
    directions no counter is negative, and the cars waiting plus the cars
    inside the intersection are at most the car threads (likewise the
    ambulances): the [int] counters stay far from overflow. *)
Theorem contadores_limitados (dcarros dambulancias : list Z) (s : Sistema) :
  Forall direcao_valida dcarros -> Forall direcao_valida dambulancias ->
  alcancavel (inicial dcarros dambulancias) s ->
  (forall d, direcao_valida d ->
     0 <= arr_get (carros_esperando (cruzamento s)) d
     /\ 0 <= arr_get (ambulancias_esperando (cruzamento s)) d)
  /\ 0 <= carros_no_cruzamento (cruzamento s)
  /\ 0 <= ambulancias_no_cruzamento (cruzamento s)
  /\ demanda_ns (cruzamento s) + demanda_lo (cruzamento s)
     + carros_no_cruzamento (cruzamento s) <= Z.of_nat (length dcarros)
  /\ demanda_amb_ns (cruzamento s) + demanda_amb_lo (cruzamento s)
     + ambulancias_no_cruzamento (cruzamento s)
     <= Z.of_nat (length dambulancias).
Proof. apply alcancavel_limites. Qed.

Lemma contadores_limitados_witness :
  (forall d, direcao_valida d ->
     0 <= arr_get (carros_esperando (cruzamento
            (apos [ThCarro 18; ThCarro 0; ThAmbulancia 3; ThAmbulancia 3]))) d
     /\ 0 <= arr_get (ambulancias_esperando (cruzamento
               (apos [ThCarro 18; ThCarro 0; ThAmbulancia 3; ThAmbulancia 3]))) d)
  /\ 0 <= carros_no_cruzamento (cruzamento
            (apos [ThCarro 18; ThCarro 0; ThAmbulancia 3; ThAmbulancia 3]))
  /\ 0 <= ambulancias_no_cruzamento (cruzamento
            (apos [ThCarro 18; ThCarro 0; ThAmbulancia 3; ThAmbulancia 3]))
  /\ demanda_ns (cruzamento
       (apos [ThCarro 18; ThCarro 0; ThAmbulancia 3; ThAmbulancia 3]))
     + demanda_lo (cruzamento
         (apos [ThCarro 18; ThCarro 0; ThAmbulancia 3; ThAmbulancia 3]))
     + carros_no_cruzamento (cruzamento
         (apos [ThCarro 18; ThCarro 0; ThAmbulancia 3; ThAmbulancia 3]))
     <= Z.of_nat (length main_carros)
  /\ demanda_amb_ns (cruzamento
       (apos [ThCarro 18; ThCarro 0; ThAmbulancia 3; ThAmbulancia 3]))
     + demanda_amb_lo (cruzamento
         (apos [ThCarro 18; ThCarro 0; ThAmbulancia 3; ThAmbulancia 3]))
     + ambulancias_no_cruzamento (cruzamento
         (apos [ThCarro 18; ThCarro 0; ThAmbulancia 3; ThAmbulancia 3]))
     <= Z.of_nat (length main_ambulancias).
Proof.
  apply (contadores_limitados main_carros main_ambulancias
           (apos [ThCarro 18; ThCarro 0; ThAmbulancia 3; ThAmbulancia 3])).
  - vm_compute; repeat (constructor; [lia|]); constructor.
  - vm_compute; repeat (constructor; [lia|]); constructor.
  - apply executa_alcancavel
      with (ts := [ThCarro 18; ThCarro 0; ThAmbulancia 3; ThAmbulancia 3]).
    vm_compute. reflexivity.
Defined.

(** ** The window over the demands of the program *)

Lemma tempo_calculado_int n :
  0 <= n <= Z.of_nat (length main_carros) ->
  0 <= Float.int_of_float (tempo_calculado n) <= 2147483647.
Proof.
  intros Hn. pose proof tempo_calculado_cabe_em_int as H.
  rewrite forallb_forall in H. specialize (H (Z.to_nat n)).
  rewrite Z2Nat.id in H by lia. cbv zeta in H.
  assert (Hin : In (Z.to_nat n) (seq 0 (S (length main_carros)))).
  { apply in_seq. lia. }
  apply H in Hin. apply andb_true_iff in Hin as [H1 H2]. lia.
Qed.

(** In every reachable state of the program of [main], the demand that the
    normal branch of the controller would take lies between 0 and the 34
    car threads, and the sum computed from it, once truncated, is an
    [int]: the conversion of line 376 is always defined. *)
Theorem janela_definida_em_main (s : Sistema) :
  alcancavel main s ->
  0 <= snd (proximo_estado_normal (cruzamento s)) <= Z.of_nat TOTAL_CARROS
  /\ 0 <= Float.int_of_float
            (tempo_calculado (snd (proximo_estado_normal (cruzamento s))))
     <= 2147483647.
Proof.
  intros Hr. destruct main_direcoes_validas as [Hvc Hva].
  destruct (alcancavel_limites _ _ _ Hvc Hva Hr) as (Hq & Hc & _ & Hs & _).
  destruct direcoes_validas_todas as (HN & HS & HL & HO).
  assert (Hd : 0 <= demanda_ns (cruzamento s) /\ 0 <= demanda_lo (cruzamento s)).
  { unfold demanda_ns, demanda_lo.
    pose proof (Hq _ HN) as [? _]. pose proof (Hq _ HS) as [? _].
    pose proof (Hq _ HL) as [? _]. pose proof (Hq _ HO) as [? _]. lia. }
  assert (Hn : 0 <= snd (proximo_estado_normal (cruzamento s))
               <= Z.of_nat (length main_carros)).
  { unfold proximo_estado_normal.
    destruct (demanda_ns (cruzamento s) >=? demanda_lo (cruzamento s));
      cbn [snd]; lia. }
  split; [exact Hn|]. apply tempo_calculado_int. exact Hn.
Qed.

Lemma janela_definida_em_main_witness :
  0 <= snd (proximo_estado_normal
              (cruzamento (apos [ThCarro 18; ThCarro 19; ThCarro 26])))
    <= Z.of_nat TOTAL_CARROS
  /\ 0 <= Float.int_of_float
            (tempo_calculado
               (snd (proximo_estado_normal
                       (cruzamento (apos [ThCarro 18; ThCarro 19; ThCarro 26])))))
     <= 2147483647.
Proof.
  apply (janela_definida_em_main (apos [ThCarro 18; ThCarro 19; ThCarro 26])).
  apply executa_alcancavel with (ts := [ThCarro 18; ThCarro 19; ThCarro 26]).
  vm_compute. reflexivity.
Defined.

Lemma tempo_final_sem_demanda n : n <= 0 -> tempo_final n = tempo_final 0.
Proof.
  intros Hn. unfold tempo_final, tempo_calculado.
  destruct (Z.gtb_spec n 0); [lia|]. reflexivity.
Qed.

Lemma tempo_final_cresce_passo k :
  (k < TOTAL_CARROS)%nat ->
  tempo_final (Z.of_nat k) <= tempo_final (Z.of_nat (S k)).
Proof.
  intros Hk.
  assert (H : tempo_final_cresce_ate TOTAL_CARROS = true)
    by (vm_compute; reflexivity).
  unfold tempo_final_cresce_ate in H. rewrite forallb_forall in H.
  apply Z.leb_le. apply H. apply in_seq. lia.
Qed.

Lemma tempo_final_cresce_nat n m :
  (n <= m)%nat -> (m <= TOTAL_CARROS)%nat ->
  tempo_final (Z.of_nat n) <= tempo_final (Z.of_nat m).
Proof.
  intros Hnm. induction Hnm as [|m Hnm IH]; intros Hm; [lia|].
  pose proof (tempo_final_cresce_passo m ltac:(lia)).
  specialize (IH ltac:(lia)). lia.
Qed.

(** Over the demands the program can show (at most its 34 car threads)
    the window never shrinks when the demand grows; it is the minimum of 5
    seconds up to two waiting cars and the maximum of 20 from ten on. *)
Theorem tempo_final_crescente (n m : Z) :
  n <= m -> m <= Z.of_nat TOTAL_CARROS ->
  tempo_final n <= tempo_final m
  /\ (m <= 2 -> tempo_final m = T_MINIMO)
  /\ (10 <= m -> tempo_final m = T_MAXIMO).
Proof.
  intros Hnm Hm.
  assert (Hmono : tempo_final n <= tempo_final m).
  { destruct (Z.le_gt_cases m 0) as [Hm0|Hm0].
    - rewrite (tempo_final_sem_demanda n), (tempo_final_sem_demanda m) by lia.
      lia.
    - destruct (Z.le_gt_cases n 0) as [Hn0|Hn0].
      + rewrite (tempo_final_sem_demanda n) by lia.
        pose proof (tempo_final_cresce_nat 0 (Z.to_nat m) ltac:(lia) ltac:(lia))
          as H.
        rewrite Z2Nat.id in H by lia. exact H.
      + pose proof (tempo_final_cresce_nat (Z.to_nat n) (Z.to_nat m)
                      ltac:(lia) ltac:(lia)) as H.
        rewrite !Z2Nat.id in H by lia. exact H. }
  split; [exact Hmono|]. split.
  - intros H2. destruct (Z.le_gt_cases m 0) as [Hm0|Hm0].
    + rewrite tempo_final_sem_demanda by lia. vm_compute. reflexivity.
    + assert (Hc : m = 1 \/ m = 2) by lia.
      destruct Hc as [-> | ->]; vm_compute; reflexivity.
  - intros H10.
    pose proof (tempo_final_cresce_nat 10 (Z.to_nat m) ltac:(lia) ltac:(lia))
      as H.
    rewrite Z2Nat.id in H by lia.
    assert (H20 : tempo_final (Z.of_nat 10) = 20) by (vm_compute; reflexivity).
    pose proof (limita_tempo_limites (Float.int_of_float (tempo_calculado m)))
      as Hb.
    fold (tempo_final m) in Hb. unfold T_MAXIMO in *. lia.
Qed.

Lemma tempo_final_crescente_witness :
  tempo_final 7 <= tempo_final 18
  /\ (18 <= 2 -> tempo_final 18 = T_MINIMO)
  /\ (10 <= 18 -> tempo_final 18 = T_MAXIMO).
Proof.
  apply (tempo_final_crescente 7 18).
  - lia.
  - vm_compute. discriminate.
Defined.

(** ** The selector and the emergency flag in the reachable states *)

Lemma proximo_estado_valido c :
  estado_ambulancia (proximo_estado_emergencia c)
  /\ estado_normal (fst (proximo_estado_normal c)).
Proof.
  unfold proximo_estado_emergencia, proximo_estado_normal,
    estado_ambulancia, estado_normal.
  destruct (demanda_amb_ns c >=? demanda_amb_lo c);
    destruct (demanda_ns c >=? demanda_lo c); cbn [fst]; auto.
Qed.

Lemma alcancavel_estado_valido dcarros dambulancias s :
  alcancavel (inicial dcarros dambulancias) s ->
  estado_valido (estado_atual (cruzamento s)).
Proof.
  apply (alcancavel_ind (fun s => estado_valido (estado_atual (cruzamento s)))).
  - left. left. reflexivity.
  - intros s1 t s2 Hi Hp. destruct t as [|i|i]; simpl in Hp.
    + pose proof (fluxo_trafego_escreve (pc_fluxo s1) (cruzamento s1)) as Hw.
      pose proof (fluxo_trafego_atribui (pc_fluxo s1) (cruzamento s1)) as Ha.
      destruct (fluxo_trafego (pc_fluxo s1) (cruzamento s1)) as [[c pc] [e|]];
        inversion Hp; subst; simpl.
      * destruct Hw as [_ ->]. simpl.
        pose proof (proximo_estado_valido (cruzamento s1)) as [He Hn].
        destruct (Ha _ _ _ eq_refl) as [-> | ->]; [right|left]; assumption.
      * exact Hi.
    + destruct (th_carros s1 !! i) as [[d pc]|]; [|discriminate].
      pose proof (carros_escreve d pc (cruzamento s1)) as (He & _).
      destruct (carros d pc (cruzamento s1)) as [c pc'].
      inversion Hp; subst; simpl in *. rewrite He. exact Hi.
    + destruct (th_ambulancias s1 !! i) as [[d pc]|]; [|discriminate].
      pose proof (ambulancia_escreve d pc (cruzamento s1)) as (He & _).
      destruct (ambulancia d pc (cruzamento s1)) as [c pc'].
      inversion Hp; subst; simpl in *. rewrite He. exact Hi.
Qed.

(** In every reachable state [estado_atual] is one of the four selectors,
    and while it is an ambulance selector no car is inside the
    intersection: [carros_no_cruzamento] is 0 and no car thread is between
    its entry and its exit. *)
Theorem fluxo_de_ambulancia_sem_carros
    (dcarros dambulancias : list Z) (s : Sistema) :
  alcancavel (inicial dcarros dambulancias) s ->
  estado_valido (estado_atual (cruzamento s))
  /\ (estado_ambulancia (estado_atual (cruzamento s)) ->
      carros_no_cruzamento (cruzamento s) = 0
      /\ forall i d pc, th_carros s !! i = Some (d, pc) -> pc <> CarroCruzando).
Proof.
  intros Hr. split; [apply (alcancavel_estado_valido _ _ _ Hr)|].
  intros Ha.
  pose proof (alcancavel_contagem _ _ _ Hr) as Hc. unfold inv_contagem in Hc.
  pose proof (alcancavel_carros_normal _ _ _ Hr) as Hn.
  unfold inv_carros_normal in Hn.
  pose proof (conta_nao_negativo carro_cruzando (th_carros s)) as H0.
  assert (Hz : carros_no_cruzamento (cruzamento s) = 0).
  { destruct (Z.le_gt_cases (carros_no_cruzamento (cruzamento s)) 0) as [|Hp];
      [lia|].
    exfalso. specialize (Hn ltac:(lia)).
    destruct Hn as [Hn|Hn], Ha as [Ha|Ha]; rewrite Hn in Ha; discriminate Ha. }
  split; [exact Hz|].
  intros i d pc Hl ->.
  pose proof (conta_lookup carro_cruzando _ i _ Hl eq_refl). lia.
Qed.

(** The only car inside has left, an East ambulance waits and the
    controller has opened [AMBULANCIA_LO]. *)
Lemma fluxo_de_ambulancia_sem_carros_witness :
  estado_valido (estado_atual (cruzamento
     (apos [ThCarro 0; ThAmbulancia 3; ThAmbulancia 3; ThFluxo; ThCarro 0; ThFluxo])))
  /\ (estado_ambulancia (estado_atual (cruzamento
        (apos [ThCarro 0; ThAmbulancia 3; ThAmbulancia 3; ThFluxo; ThCarro 0; ThFluxo]))) ->
      carros_no_cruzamento (cruzamento
        (apos [ThCarro 0; ThAmbulancia 3; ThAmbulancia 3; ThFluxo; ThCarro 0; ThFluxo])) = 0
      /\ forall i d pc,
           th_carros
             (apos [ThCarro 0; ThAmbulancia 3; ThAmbulancia 3; ThFluxo; ThCarro 0; ThFluxo])
           !! i = Some (d, pc) -> pc <> CarroCruzando).
Proof.
  apply (fluxo_de_ambulancia_sem_carros main_carros main_ambulancias
           (apos [ThCarro 0; ThAmbulancia 3; ThAmbulancia 3; ThFluxo; ThCarro 0; ThFluxo])).
  apply executa_alcancavel
    with (ts := [ThCarro 0; ThAmbulancia 3; ThAmbulancia 3; ThFluxo; ThCarro 0; ThFluxo]).
  vm_compute. reflexivity.
Defined.

Lemma ambulancia_emergencia d pc c :
  (pc = AmbulanciaAnunciada \/ pc = AmbulanciaEsperando ->
   modo_emergencia (fst (ambulancia d pc c)) = modo_emergencia c
   /\ snd (ambulancia d pc c) <> AmbulanciaChegando)
  /\ (pc = AmbulanciaChegando -> snd (ambulancia d pc c) = AmbulanciaAnunciada)
  /\ (pc = AmbulanciaCruzando -> modo_emergencia (fst (ambulancia d pc c)) = false).
Proof.
  split; [|split].
  - intros [-> | ->]; unfold ambulancia, ambulancia_tenta_entrar;
      match goal with
      | |- context [if ?b then _ else _] => destruct b
      end; cbn; split; auto; discriminate.
  - intros ->. reflexivity.
  - intros ->. reflexivity.
Qed.

Lemma inv_emergencia_passo s t s' :
  inv_emergencia s -> passo t s = Some s' -> inv_emergencia s'.
Proof.
  unfold inv_emergencia. intros Hi Hp. destruct t as [|j|j]; simpl in Hp.
  - pose proof (fluxo_trafego_escreve (pc_fluxo s) (cruzamento s)) as Hw.
    destruct (fluxo_trafego (pc_fluxo s) (cruzamento s)) as [[c pc] [e|]];
      inversion Hp; subst; simpl; [destruct Hw as [_ ->]|]; exact Hi.
  - destruct (th_carros s !! j) as [[d pc]|]; [|discriminate].
    pose proof (carros_escreve d pc (cruzamento s)) as (_ & He & _).
    destruct (carros d pc (cruzamento s)) as [c pc'].
    inversion Hp; subst; simpl in *. rewrite He. exact Hi.
  - destruct (th_ambulancias s !! j) as [[d pc]|] eqn:Hl; [|discriminate].
    pose proof (ambulancia_emergencia d pc (cruzamento s)) as (Hq & Hch & Hx).
    destruct (ambulancia d pc (cruzamento s)) as [c pc'].
    inversion Hp; subst; simpl in *. intros Hm.
    assert (Hlt : (j < length (th_ambulancias s))%nat)
      by (apply lookup_lt_Some in Hl; exact Hl).
    destruct pc.
    + exists j, d, pc'. rewrite list_lookup_insert_eq by exact Hlt.
      split; [reflexivity|]. rewrite (Hch eq_refl). discriminate.
    + exists j, d, pc'. rewrite list_lookup_insert_eq by exact Hlt.
      split; [reflexivity|]. apply Hq. left; reflexivity.
    + exists j, d, pc'. rewrite list_lookup_insert_eq by exact Hlt.
      split; [reflexivity|]. apply Hq. right; reflexivity.
    + rewrite (Hx eq_refl) in Hm. discriminate Hm.
Qed.

Lemma alcancavel_emergencia dcarros dambulancias s :
  alcancavel (inicial dcarros dambulancias) s -> inv_emergencia s.
Proof.
  apply alcancavel_ind.
  - unfold inv_emergencia. simpl. discriminate.
  - intros s1 t s2. apply inv_emergencia_passo.
Qed.

(** In every reachable state, [modo_emergencia] is set only while some
    ambulance thread is between its announcement and its exit: announced,
    waiting or crossing.  A program without ambulances never leaves the
    normal mode. *)
Theorem emergencia_tem_ambulancia (dcarros dambulancias : list Z) (s : Sistema) :
  alcancavel (inicial dcarros dambulancias) s ->
  modo_emergencia (cruzamento s) = true ->
  exists i d pc, th_ambulancias s !! i = Some (d, pc) /\ pc <> AmbulanciaChegando.
Proof. intros Hr. apply (alcancavel_emergencia _ _ _ Hr). Qed.

Lemma emergencia_tem_ambulancia_witness :
  exists i d pc,
    th_ambulancias (apos [ThAmbulancia 2; ThAmbulancia 5; ThAmbulancia 2]) !! i
    = Some (d, pc) /\ pc <> AmbulanciaChegando.
Proof.
  apply (emergencia_tem_ambulancia main_carros main_ambulancias
           (apos [ThAmbulancia 2; ThAmbulancia 5; ThAmbulancia 2])).
  - apply executa_alcancavel
      with (ts := [ThAmbulancia 2; ThAmbulancia 5; ThAmbulancia 2]).
    vm_compute. reflexivity.
  - vm_compute. reflexivity.
Defined.

(** ** Waking the waiting threads *)

Lemma pode_passar_le c c' dir estado tipo :
  modo_emergencia c' = modo_emergencia c ->
  pode_passar c' dir estado tipo = pode_passar c dir estado tipo.
Proof. intros H. unfold pode_passar. rewrite H. reflexivity. Qed.

(** What a section without broadcast may change of the shared state: it
    keeps the selector and the emergency flag and does not lower
    [carros_no_cruzamento]; and a thread that was blocked on its own
    waiting loop leaves everything as it was. *)
Lemma carros_sem_broadcast d pc c :
  carros_broadcast pc = false ->
  estado_atual (fst (carros d pc c)) = estado_atual c
  /\ modo_emergencia (fst (carros d pc c)) = modo_emergencia c
  /\ carros_no_cruzamento c <= carros_no_cruzamento (fst (carros d pc c))
  /\ (carro_bloqueado c (d, pc) = true -> carros d pc c = (c, pc)).
Proof.
  intros Hb. pose proof (carros_escreve d pc c) as (He & Hm & _ & Hc).
  repeat split; auto.
  - destruct pc; [| |discriminate Hb];
      destruct (snd (carros d _ c)); cbn [carro_cruzando snd peso] in Hc; lia.
  - unfold carro_bloqueado. cbn [fst snd].
    destruct pc; try discriminate. intros Ht.
    unfold carros, carros_tenta_entrar. rewrite Ht. reflexivity.
Qed.

Lemma ambulancia_sem_broadcast d pc c :
  ambulancia_broadcast pc = false ->
  estado_atual (fst (ambulancia d pc c)) = estado_atual c
  /\ modo_emergencia (fst (ambulancia d pc c)) = modo_emergencia c
  /\ carros_no_cruzamento (fst (ambulancia d pc c)) = carros_no_cruzamento c
  /\ (ambulancia_bloqueada c (d, pc) = true -> ambulancia d pc c = (c, pc)).
Proof.
  intros Hb. pose proof (ambulancia_escreve d pc c) as (He & Hc & _).
  pose proof (ambulancia_emergencia d pc c) as (Hm & _ & _).
  repeat split; auto.
  - destruct pc; try discriminate Hb; apply Hm; auto.
  - unfold ambulancia_bloqueada. cbn [fst snd].
    destruct pc; try discriminate. intros Ht.
    unfold ambulancia, ambulancia_tenta_entrar. rewrite Ht. reflexivity.
Qed.

Lemma fluxo_sem_broadcast pc c :
  fluxo_broadcast pc c = false ->
  fst (fst (fluxo_trafego pc c)) = c
  /\ (fluxo_bloqueado c pc = true -> snd (fst (fluxo_trafego pc c)) = pc).
Proof.
  unfold fluxo_broadcast, fluxo_bloqueado, fluxo_trafego, fluxo_emergencia,
    fluxo_normal, fluxo_aguarda_emergencia.
  destruct (proximo_estado_normal c) as [p n].
  destruct pc; destruct (carros_no_cruzamento c >? 0); cbn [negb];
    try discriminate;
    repeat match goal with
           | |- context [if ?b then _ else _] => destruct b
           end; cbn [fst snd]; intros _; split; auto; try discriminate.
Qed.

Lemma bloqueados_preservados (c c' : Cruzamento) :
  estado_atual c' = estado_atual c ->
  modo_emergencia c' = modo_emergencia c ->
  carros_no_cruzamento c <= carros_no_cruzamento c' ->
  (forall tc, carro_bloqueado c tc = true -> carro_bloqueado c' tc = true)
  /\ (forall ta, ambulancia_bloqueada c ta = true ->
        ambulancia_bloqueada c' ta = true)
  /\ (forall pc, fluxo_bloqueado c pc = true -> fluxo_bloqueado c' pc = true).
Proof.
  intros He Hm Hc. split; [|split].
  - intros [d pc]. unfold carro_bloqueado. cbn [fst snd].
    rewrite He, (pode_passar_le c c') by exact Hm. auto.
  - intros [d pc]. unfold ambulancia_bloqueada. cbn [fst snd].
    rewrite He, (pode_passar_le c c') by exact Hm. auto.
  - intros pc. unfold fluxo_bloqueado. rewrite Hm.
    destruct pc; auto; intros H; apply Z.gtb_lt in H; apply Z.gtb_lt; lia.
Qed.

(** A critical section that does not run [pthread_cond_broadcast] cannot
    end the wait of any thread: every thread that is inside a
    [pthread_cond_wait] with its loop test still true before the section
    is so after it.  So each change that can release a waiting thread comes
    with a broadcast. *)
Theorem sem_broadcast_ninguem_e_liberado (s s' : Sistema) (t : Thread) :
  passo t s = Some s' -> broadcast t s = false ->
  forall t', bloqueada t' s = true -> bloqueada t' s' = true.
Proof.
  intros Hp Hb. destruct t as [|i|i]; simpl in Hp, Hb.
  - pose proof (fluxo_sem_broadcast _ _ Hb) as [Hc Hpc].
    destruct (fluxo_trafego (pc_fluxo s) (cruzamento s)) as [[c pc] e].
    inversion Hp; subst; cbn [fst snd] in *. subst c.
    intros [|j|j]; simpl; auto.
    intros Hbl. rewrite (Hpc Hbl). exact Hbl.
  - destruct (th_carros s !! i) as [[d pc]|] eqn:Hl; [|discriminate].
    pose proof (carros_sem_broadcast d pc (cruzamento s) Hb) as (He & Hm & Hc & Hs).
    destruct (carros d pc (cruzamento s)) as [c pc'] eqn:Hst.
    inversion Hp; subst; cbn [fst snd] in *.
    destruct (bloqueados_preservados _ _ He Hm Hc) as (Hbc & Hba & Hbf).
    intros [|j|j]; simpl; auto.
    + destruct (decide (i = j)) as [->|Hne].
      * rewrite Hl. intros Hbl. specialize (Hs Hbl). inversion Hs; subst.
        rewrite list_lookup_insert_eq
          by (apply lookup_lt_Some in Hl; exact Hl).
        exact Hbl.
      * rewrite list_lookup_insert_ne by exact Hne.
        destruct (th_carros s !! j); auto.
    + destruct (th_ambulancias s !! j); auto.
  - destruct (th_ambulancias s !! i) as [[d pc]|] eqn:Hl; [|discriminate].
    pose proof (ambulancia_sem_broadcast d pc (cruzamento s) Hb)
      as (He & Hm & Hc & Hs).
    destruct (ambulancia d pc (cruzamento s)) as [c pc'] eqn:Hst.
    inversion Hp; subst; cbn [fst snd] in *.
    destruct (bloqueados_preservados (cruzamento s) c He Hm ltac:(lia))
      as (Hbc & Hba & Hbf).
    intros [|j|j]; simpl; auto.
    + destruct (th_carros s !! j); auto.
    + destruct (decide (i = j)) as [->|Hne].
      * rewrite Hl. intros Hbl. specialize (Hs Hbl). inversion Hs; subst.
        rewrite list_lookup_insert_eq
          by (apply lookup_lt_Some in Hl; exact Hl).
        exact Hbl.
      * rewrite list_lookup_insert_ne by exact Hne.
        destruct (th_ambulancias s !! j); auto.
Qed.

(** An East car waits under [FLUXO_NS]; a North car entering (no
    broadcast) leaves it waiting. *)
Lemma sem_broadcast_ninguem_e_liberado_witness :
  bloqueada (ThCarro 18) (apos [ThCarro 18; ThCarro 0]) = true.
Proof.
  apply (sem_broadcast_ninguem_e_liberado (apos [ThCarro 18]) (apos [ThCarro 18; ThCarro 0])
           (ThCarro 0)).
  - vm_compute. reflexivity.
  - vm_compute. reflexivity.
  - vm_compute. reflexivity.
Defined.

(** ** Some thread can always go on *)

Lemma existe_ou_todos {A} (p : A -> bool) (l : list A) :
  (exists i x, l !! i = Some x /\ p x = false)
  \/ (forall i x, l !! i = Some x -> p x = true).
Proof.
  induction l as [|a l IH].
  - right. intros i x H. discriminate.
  - destruct (p a) eqn:Ha.
    + destruct IH as [(i & x & Hl & Hx)|Hall].
      * left. exists (S i), x. auto.
      * right. intros [|i] x H; simpl in H.
        -- inversion H; subst. exact Ha.
        -- eapply Hall; eauto.
    + left. exists 0%nat, a. auto.
Qed.

Lemma carros_progride d pc c :
  carro_bloqueado c (d, pc) = false -> snd (carros d pc c) <> pc.
Proof.
  unfold carro_bloqueado, carros, carros_tenta_entrar. cbn [fst snd].
  destruct pc; try (intros ->);
    repeat match goal with
           | |- context [if ?b then _ else _] => destruct b
           end; cbn [snd]; discriminate.
Qed.

Lemma ambulancia_progride d pc c :
  ambulancia_bloqueada c (d, pc) = false -> snd (ambulancia d pc c) <> pc.
Proof.
  unfold ambulancia_bloqueada, ambulancia, ambulancia_tenta_entrar.
  cbn [fst snd].
  destruct pc; try (intros ->);
    repeat match goal with
           | |- context [if ?b then _ else _] => destruct b
           end; cbn [snd]; discriminate.
Qed.

Lemma fluxo_progride pc c :
  fluxo_bloqueado c pc = false -> snd (fst (fluxo_trafego pc c)) <> pc.
Proof.
  unfold fluxo_bloqueado, fluxo_trafego, fluxo_emergencia, fluxo_normal,
    fluxo_aguarda_emergencia.
  destruct (proximo_estado_normal c) as [p n].
  destruct pc; cbn [modo_emergencia set_estado_atual];
    destruct (carros_no_cruzamento c >? 0); destruct (modo_emergencia c);
    try discriminate; intros _;
    repeat match goal with
           | |- context [if ?b then _ else _] => destruct b
           end; cbn [fst snd]; try discriminate.
  all: intros H; inversion H; lia.
Qed.

Lemma alcancavel_direcoes dcarros dambulancias s :
  alcancavel (inicial dcarros dambulancias) s ->
  map fst (th_carros s) = dcarros /\ map fst (th_ambulancias s) = dambulancias.
Proof.
  apply (alcancavel_ind
           (fun s => map fst (th_carros s) = dcarros
                     /\ map fst (th_ambulancias s) = dambulancias)).
  - simpl. rewrite !map_map. split; apply map_id.
  - intros s1 t s2 [Hc Ha] Hp. destruct t as [|i|i]; simpl in Hp.
    + destruct (fluxo_trafego (pc_fluxo s1) (cruzamento s1)) as [[c pc] e].
      inversion Hp; subst. auto.
    + destruct (th_carros s1 !! i) as [[d pc]|] eqn:Hl; [|discriminate].
      destruct (carros d pc (cruzamento s1)) as [c pc'].
      inversion Hp; subst; simpl. split; [|reflexivity].
      apply (map_fst_insert _ _ _ _ _ Hl).
    + destruct (th_ambulancias s1 !! i) as [[d pc]|] eqn:Hl; [|discriminate].
      destruct (ambulancia d pc (cruzamento s1)) as [c pc'].
      inversion Hp; subst; simpl. split; [reflexivity|].
      apply (map_fst_insert _ _ _ _ _ Hl).
Qed.

Lemma no_eixo_direcao e d : no_eixo e d = true -> eixo_direcao d = Some e.
Proof.
  unfold no_eixo, eixo_direcao, NORTE, SUL, LESTE, OESTE.
  destruct e; destruct (Z.eqb_spec d 0); destruct (Z.eqb_spec d 1);
    destruct (Z.eqb_spec d 2); destruct (Z.eqb_spec d 3);
    cbn [orb]; intros H; try reflexivity; try discriminate H; lia.
Qed.

Lemma ambulancia_do_eixo_livre c d e pc :
  eixo_estado (estado_atual c) = Some e -> no_eixo e d = true ->
  ambulancia_bloqueada c (d, pc) = false.
Proof.
  intros He Hd. unfold ambulancia_bloqueada. cbn [fst snd].
  destruct pc; try reflexivity.
  assert (H1 : pode_passar c d (estado_atual c) TIPO_AMBULANCIA = 1).
  { apply pode_passar_um. split; [|split].
    - exists e. split; [apply no_eixo_direcao; exact Hd | exact He].
    - reflexivity.
    - discriminate. }
  rewrite H1. reflexivity.
Qed.

Lemma lookup_da_direcao {A} (l : list (Z * A)) d :
  d ∈ map fst l -> exists i x, l !! i = Some (d, x).
Proof.
  intros Hd. change (map fst) with (fmap (M := list) (@fst Z A)) in Hd.
  apply list_elem_of_fmap in Hd as [[d' x] [-> Hx]].
  apply list_elem_of_lookup in Hx as [i Hi]. exists i, x. exact Hi.
Qed.

Lemma alcancavel_progresso dcarros dambulancias s :
  dambulancias = []
  \/ (exists d1 d2, d1 ∈ dambulancias /\ d2 ∈ dambulancias
                    /\ no_eixo EixoNS d1 = true /\ no_eixo EixoLO d2 = true) ->
  alcancavel (inicial dcarros dambulancias) s ->
  exists t s', passo t s = Some s' /\ bloqueada t s = false /\ s' <> s.
Proof.
  intros Hpop Hr.
  destruct (existe_ou_todos (carro_bloqueado (cruzamento s)) (th_carros s))
    as [(i & [d pc] & Hl & Hnb)|Hallc].
  { exists (ThCarro i). simpl. rewrite Hl.
    pose proof (carros_progride d pc (cruzamento s) Hnb) as Hpg.
    destruct (carros d pc (cruzamento s)) as [c pc'].
    eexists. split; [reflexivity|]. split; [exact Hnb|].
    intros Heq. apply (f_equal (fun x => th_carros x !! i)) in Heq.
    simpl in Heq. rewrite Hl in Heq.
    rewrite list_lookup_insert_eq in Heq
      by (apply lookup_lt_Some in Hl; exact Hl).
    inversion Heq. apply Hpg. assumption. }
  destruct (existe_ou_todos (ambulancia_bloqueada (cruzamento s))
              (th_ambulancias s)) as [(i & [d pc] & Hl & Hnb)|Halla].
  { exists (ThAmbulancia i). simpl. rewrite Hl.
    pose proof (ambulancia_progride d pc (cruzamento s) Hnb) as Hpg.
    destruct (ambulancia d pc (cruzamento s)) as [c pc'].
    eexists. split; [reflexivity|]. split; [exact Hnb|].
    intros Heq. apply (f_equal (fun x => th_ambulancias x !! i)) in Heq.
    simpl in Heq. rewrite Hl in Heq.
    rewrite list_lookup_insert_eq in Heq
      by (apply lookup_lt_Some in Hl; exact Hl).
    inversion Heq. apply Hpg. assumption. }
  destruct (fluxo_bloqueado (cruzamento s) (pc_fluxo s)) eqn:Hf.
  2:{ exists ThFluxo. simpl.
      pose proof (fluxo_progride _ _ Hf) as Hpg.
      destruct (fluxo_trafego (pc_fluxo s) (cruzamento s)) as [[c pc] e].
      eexists. split; [reflexivity|]. split; [exact Hf|].
      intros Heq. apply (f_equal pc_fluxo) in Heq. simpl in *. auto. }
  exfalso.
  assert (Hzero : carros_no_cruzamento (cruzamento s) = 0).
  { rewrite (alcancavel_contagem _ _ _ Hr). apply conta_zero.
    intros [d pc] Hx. apply list_elem_of_lookup in Hx as [i Hi].
    specialize (Hallc i _ Hi). unfold carro_bloqueado in Hallc.
    cbn [fst snd] in Hallc. destruct pc; try discriminate. reflexivity. }
  unfold fluxo_bloqueado in Hf.
  destruct (pc_fluxo s); try discriminate;
    try (rewrite Hzero in Hf; discriminate Hf).
  destruct (alcancavel_emergencia _ _ _ Hr Hf) as (i & d & pc & Hl & _).
  destruct (alcancavel_direcoes _ _ _ Hr) as [_ Hma].
  destruct Hpop as [->|(d1 & d2 & H1 & H2 & Hns & Hlo)].
  { apply (f_equal length) in Hma. rewrite length_map in Hma.
    apply lookup_lt_Some in Hl. simpl in Hma. lia. }
  rewrite <- Hma in H1, H2.
  apply lookup_da_direcao in H1 as (i1 & pc1 & Hl1).
  apply lookup_da_direcao in H2 as (i2 & pc2 & Hl2).
  pose proof (alcancavel_estado_valido _ _ _ Hr) as Hv.
  assert (He : eixo_estado (estado_atual (cruzamento s)) = Some EixoNS
               \/ eixo_estado (estado_atual (cruzamento s)) = Some EixoLO).
  { destruct Hv as [[Hv|Hv]|[Hv|Hv]]; rewrite Hv; auto. }
  destruct He as [He|He].
  - pose proof (ambulancia_do_eixo_livre _ d1 _ pc1 He Hns) as Hfree.
    rewrite (Halla _ _ Hl1) in Hfree. discriminate.
  - pose proof (ambulancia_do_eixo_livre _ d2 _ pc2 He Hlo) as Hfree.
    rewrite (Halla _ _ Hl2) in Hfree. discriminate.
Qed.

(** If the program has no ambulance, or has ambulances on both axes (as
    that of [main] has), then in every reachable state some thread is not
    blocked: it is outside every [pthread_cond_wait], or inside one whose
    loop test has become false; its next critical section changes the
    state of the program.  No reachable state has all threads waiting for
    ever. *)
Theorem sempre_ha_thread_livre (dcarros dambulancias : list Z) (s : Sistema) :
  dambulancias = []
  \/ (exists d1 d2, d1 ∈ dambulancias /\ d2 ∈ dambulancias
                    /\ no_eixo EixoNS d1 = true /\ no_eixo EixoLO d2 = true) ->
  alcancavel (inicial dcarros dambulancias) s ->
  exists t s', passo t s = Some s' /\ bloqueada t s = false /\ s' <> s.
Proof. apply alcancavel_progresso. Qed.

(** In the program of [main], after an East ambulance announced itself,
    the controller chose [AMBULANCIA_NS] with both ambulance queues still
    empty, and the ambulance and a car went to wait. *)
Lemma sempre_ha_thread_livre_witness :
  exists t s',
    passo t (apos [ThAmbulancia 3; ThFluxo; ThAmbulancia 3; ThCarro 0]) = Some s'
    /\ bloqueada t (apos [ThAmbulancia 3; ThFluxo; ThAmbulancia 3; ThCarro 0])
       = false
    /\ s' <> apos [ThAmbulancia 3; ThFluxo; ThAmbulancia 3; ThCarro 0].
Proof.
  apply (sempre_ha_thread_livre main_carros main_ambulancias
           (apos [ThAmbulancia 3; ThFluxo; ThAmbulancia 3; ThCarro 0])).
  - right. exists NORTE, LESTE. vm_compute.
    repeat split; try reflexivity.
    + apply list_elem_of_here.
    + do 3 apply list_elem_of_further. apply list_elem_of_here.
  - apply executa_alcancavel
      with (ts := [ThAmbulancia 3; ThFluxo; ThAmbulancia 3; ThCarro 0]).
    vm_compute. reflexivity.
Defined.

(** The hypothesis on the ambulances is needed: with one car and one
    ambulance, from the East, the run [escalonamento_impasse] ends in a
    state where the car, the ambulance and the controller are all blocked
    and no critical section changes anything. *)
Lemma impasse_so_com_ambulancias_de_um_eixo :
  exists s, executa escalonamento_impasse populacao_leste = Some s
            /\ bloqueada ThFluxo s = true
            /\ bloqueada (ThCarro 0) s = true
            /\ bloqueada (ThAmbulancia 0) s = true
            /\ forall t s', passo t s = Some s' -> s' = s.
Proof.
  eexists. split; [vm_compute; reflexivity|].
  repeat split; try (vm_compute; reflexivity).
  intros [|[|i]|[|i]] s' H; vm_compute in H; congruence.
Qed.

(** ** The end of a window *)

Lemma fluxo_janela_nao_escreve p i tf c :
  fst (fluxo_trafego (FluxoJanela p i tf) c) =
  (c, if (i <? tf) && negb (fila_ativa_esvaziou p c)
      then FluxoJanela p (i + 1) tf else FluxoInicio).
Proof.
  unfold fluxo_trafego. destruct (i <? tf); [|reflexivity].
  destruct (fila_ativa_esvaziou p c); reflexivity.
Qed.

Lemma janela_fecha_aux cs : forall p i tf,
  Z.max 0 (tf - i) < Z.of_nat (length cs) ->
  exists k, (0 < k <= length cs)%nat
            /\ Z.of_nat k <= Z.max 0 (tf - i) + 1
            /\ fluxo_trafego_seq (take k cs) (FluxoJanela p i tf) = FluxoInicio.
Proof.
  induction cs as [|c cs IH]; intros p i tf Hlen; simpl length in Hlen; [lia|].
  destruct ((i <? tf) && negb (fila_ativa_esvaziou p c)) eqn:Hb.
  - assert (Hlt : i < tf).
    { apply andb_true_iff in Hb as [Hlt _]. apply Z.ltb_lt in Hlt. exact Hlt. }
    destruct (IH p (i + 1) tf ltac:(lia)) as (k & Hk & Hkb & Hseq).
    exists (S k). split; [simpl length; lia|]. split; [lia|].
    cbn [take fluxo_trafego_seq]. rewrite fluxo_janela_nao_escreve.
    cbn [snd]. rewrite Hb. exact Hseq.
  - exists 1%nat. split; [simpl length; lia|]. split; [lia|].
    cbn [take fluxo_trafego_seq]. rewrite fluxo_janela_nao_escreve.
    cbn [snd]. rewrite Hb. destruct cs; reflexivity.
Qed.

(** A window that the controller entered with [tempo_final] = [tf] ends:
    whatever shared states the vehicles leave, within [tf - i + 1] of its
    critical sections the controller is back at the top of its loop (at
    most 21 for a computed window, which is at most [T_MAXIMO]); and in the
    window it writes nothing to the shared state. *)
Theorem janela_fecha (p i tf : Z) (cs : list Cruzamento) :
  Z.max 0 (tf - i) < Z.of_nat (length cs) ->
  (exists k, (0 < k <= length cs)%nat
             /\ Z.of_nat k <= Z.max 0 (tf - i) + 1
             /\ fluxo_trafego_seq (take k cs) (FluxoJanela p i tf) = FluxoInicio)
  /\ (forall c, fst (fst (fluxo_trafego (FluxoJanela p i tf) c)) = c
                /\ snd (fluxo_trafego (FluxoJanela p i tf) c) = None).
Proof.
  intros Hlen. split; [apply janela_fecha_aux; exact Hlen|].
  intros c. unfold fluxo_trafego.
  destruct (i <? tf); [destruct (fila_ativa_esvaziou p c)|]; split; reflexivity.
Qed.

(** A window of 5 seconds for the North-South axis, against
    [observacoes_janela]. *)
Lemma janela_fecha_witness :
  (exists k, (0 < k <= length observacoes_janela)%nat
             /\ Z.of_nat k <= Z.max 0 (5 - 0) + 1
             /\ fluxo_trafego_seq (take k observacoes_janela)
                  (FluxoJanela FLUXO_NS 0 5) = FluxoInicio)
  /\ (forall c, fst (fst (fluxo_trafego (FluxoJanela FLUXO_NS 0 5) c)) = c
                /\ snd (fluxo_trafego (FluxoJanela FLUXO_NS 0 5) c) = None).
Proof.
  apply (janela_fecha FLUXO_NS 0 5 observacoes_janela).
  simpl. lia.
Defined.

(** ** Who meets whom inside the intersection *)

Lemma ambulancia_entra d pc c :
  pc = AmbulanciaAnunciada \/ pc = AmbulanciaEsperando ->
  snd (ambulancia d pc c) = AmbulanciaCruzando ->
  direcao_valida d /\ eixo_direcao d = eixo_estado (estado_atual c).
Proof.
  intros Hpc. unfold ambulancia, ambulancia_tenta_entrar.
  destruct Hpc as [-> | ->];
    match goal with
    | |- context [pode_passar ?c' ?d' ?e' ?t' =? 0] =>
        destruct (Z.eqb_spec (pode_passar c' d' e' t') 0) as [|Hp]
    end; cbn; try discriminate; intros _;
    apply pode_passar_eixo in Hp; exact Hp.
Qed.

(** In a reachable state, an ambulance that its critical section takes
    into the intersection finds there only cars of its own axis. *)
Theorem ambulancia_entra_sem_carro_transversal
    (dcarros dambulancias : list Z) (s : Sistema) (d : Z) (pc : PcAmbulancia) :
  alcancavel (inicial dcarros dambulancias) s ->
  pc = AmbulanciaAnunciada \/ pc = AmbulanciaEsperando ->
  snd (ambulancia d pc (cruzamento s)) = AmbulanciaCruzando ->
  forall j dj, th_carros s !! j = Some (dj, CarroCruzando) ->
               eixo_direcao dj = eixo_direcao d.
Proof.
  intros Hr Hpc Hin j dj Hj.
  destruct (ambulancia_entra d pc (cruzamento s) Hpc Hin) as [_ He].
  destruct (alcancavel_carros_eixo _ _ _ Hr) as [_ Hc].
  rewrite (Hc j dj Hj), He. reflexivity.
Qed.

(** A North car is inside; a South ambulance, announced, enters. *)
Lemma ambulancia_entra_sem_carro_transversal_witness :
  eixo_direcao NORTE = eixo_direcao SUL.
Proof.
  apply (ambulancia_entra_sem_carro_transversal main_carros main_ambulancias
           (apos [ThCarro 0; ThAmbulancia 2]) SUL AmbulanciaAnunciada)
    with (j := 0%nat).
  - apply executa_alcancavel with (ts := [ThCarro 0; ThAmbulancia 2]).
    vm_compute. reflexivity.
  - left. reflexivity.
  - vm_compute. reflexivity.
  - vm_compute. reflexivity.
Defined.

(** Two cars that are inside the intersection in a reachable state came
    from the same axis: cars of crossing directions are never inside
    together. *)
Theorem carros_transversais_nunca_juntos
    (dcarros dambulancias : list Z) (s : Sistema) (i j : nat) (di dj : Z) :
  alcancavel (inicial dcarros dambulancias) s ->
  th_carros s !! i = Some (di, CarroCruzando) ->
  th_carros s !! j = Some (dj, CarroCruzando) ->
  eixo_direcao di = eixo_direcao dj /\ direcao_valida di /\ direcao_valida dj.
Proof.
  intros Hr Hi Hj. destruct (alcancavel_carros_eixo _ _ _ Hr) as [_ He].
  pose proof (He i di Hi) as Hei. pose proof (He j dj Hj) as Hej.
  pose proof (alcancavel_estado_valido _ _ _ Hr) as Hv.
  assert (Hs : exists e, eixo_estado (estado_atual (cruzamento s)) = Some e).
  { destruct Hv as [[Hv|Hv]|[Hv|Hv]]; rewrite Hv; eauto. }
  destruct Hs as [e Hs]. rewrite Hs in Hei, Hej.
  assert (Hval : forall d, eixo_direcao d = Some e -> direcao_valida d).
  { intros d Hd. unfold eixo_direcao, direcao_valida in *.
    destruct (Z.eqb_spec d NORTE); auto. destruct (Z.eqb_spec d SUL); auto.
    destruct (Z.eqb_spec d LESTE); auto. destruct (Z.eqb_spec d OESTE); auto.
    discriminate Hd. }
  split; [congruence|]. split; apply Hval; assumption.
Qed.

(** A North car and a South car are inside under [FLUXO_NS]. *)
Lemma carros_transversais_nunca_juntos_witness :
  eixo_direcao NORTE = eixo_direcao SUL
  /\ direcao_valida NORTE /\ direcao_valida SUL.
Proof.
  apply (carros_transversais_nunca_juntos main_carros main_ambulancias
           (apos [ThCarro 0; ThCarro 15]) 0%nat 15%nat NORTE SUL).
  - apply executa_alcancavel with (ts := [ThCarro 0; ThCarro 15]).
    vm_compute. reflexivity.
  - vm_compute. reflexivity.
  - vm_compute. reflexivity.
Defined.

(** ** The controller opens an axis where somebody waits *)

Lemma conta_pos_existe {A} (p : A -> bool) (l : list A) :
  0 < conta p l -> exists i x, l !! i = Some x /\ p x = true.
Proof.
  induction l as [|a l IH]; simpl; [lia|].
  destruct (p a) eqn:Ha.
  - intros _. exists 0%nat, a. auto.
  - intros H. destruct (IH ltac:(lia)) as (i & x & Hl & Hx).
    exists (S i), x. auto.
Qed.

Lemma carro_esperando_em_inv d t :
  carro_esperando_em d t = true -> t = (d, CarroEsperando).
Proof.
  destruct t as [d' pc]. unfold carro_esperando_em. cbn [fst snd].
  destruct (Z.eqb_spec d' d) as [->|]; destruct pc; cbn [andb];
    intros H; try discriminate H. reflexivity.
Qed.

Lemma ambulancia_esperando_em_inv d t :
  ambulancia_esperando_em d t = true -> t = (d, AmbulanciaEsperando).
Proof.
  destruct t as [d' pc]. unfold ambulancia_esperando_em. cbn [fst snd].
  destruct (Z.eqb_spec d' d) as [->|]; destruct pc; cbn [andb];
    intros H; try discriminate H. reflexivity.
Qed.

Lemma fila_do_eixo {A} (p : Z -> Z * A -> bool) (x : A) (l : list (Z * A))
    (d1 d2 : Z) :
  (forall d t, p d t = true -> t = (d, x)) ->
  0 < conta (p d1) l + conta (p d2) l ->
  exists i d, l !! i = Some (d, x) /\ (d = d1 \/ d = d2).
Proof.
  intros Hinv Hpos.
  pose proof (conta_nao_negativo (p d1) l).
  pose proof (conta_nao_negativo (p d2) l).
  destruct (Z.lt_ge_cases 0 (conta (p d1) l)) as [H1|H1].
  - destruct (conta_pos_existe _ _ H1) as (i & t & Hl & Ht).
    apply Hinv in Ht. subst t. exists i, d1. auto.
  - destruct (conta_pos_existe (p d2) l ltac:(lia)) as (i & t & Hl & Ht).
    apply Hinv in Ht. subst t. exists i, d2. auto.
Qed.

(** In every reachable state of a program whose threads have valid
    directions: if some car is waiting, the selector that the normal branch
    would choose opens an axis on which a car thread is waiting, and
    [num_carros] is the larger of the two demands; if some ambulance is
    waiting, the selector that the emergency branch would choose opens an
    axis on which an ambulance thread is waiting. *)
Theorem fluxo_abre_eixo_com_fila (dcarros dambulancias : list Z) (s : Sistema) :
  Forall direcao_valida dcarros -> Forall direcao_valida dambulancias ->
  alcancavel (inicial dcarros dambulancias) s ->
  (0 < demanda_ns (cruzamento s) + demanda_lo (cruzamento s) ->
   exists i d, th_carros s !! i = Some (d, CarroEsperando)
               /\ eixo_direcao d
                  = eixo_estado (fst (proximo_estado_normal (cruzamento s))))
  /\ snd (proximo_estado_normal (cruzamento s))
     = Z.max (demanda_ns (cruzamento s)) (demanda_lo (cruzamento s))
  /\ (0 < demanda_amb_ns (cruzamento s) + demanda_amb_lo (cruzamento s) ->
      exists i d, th_ambulancias s !! i = Some (d, AmbulanciaEsperando)
                  /\ eixo_direcao d
                     = eixo_estado (proximo_estado_emergencia (cruzamento s))).
Proof.
  intros Hvc Hva Hr.
  destruct (alcancavel_filas _ _ _ Hvc Hva Hr)
    as (_ & _ & _ & _ & Hc & Ha & _).
  destruct direcoes_validas_todas as (HN & HS & HL & HO).
  pose proof (conta_nao_negativo (carro_esperando_em NORTE) (th_carros s)).
  pose proof (conta_nao_negativo (carro_esperando_em SUL) (th_carros s)).
  pose proof (conta_nao_negativo (carro_esperando_em LESTE) (th_carros s)).
  pose proof (conta_nao_negativo (carro_esperando_em OESTE) (th_carros s)).
  pose proof (conta_nao_negativo (ambulancia_esperando_em NORTE) (th_ambulancias s)).
  pose proof (conta_nao_negativo (ambulancia_esperando_em SUL) (th_ambulancias s)).
  pose proof (conta_nao_negativo (ambulancia_esperando_em LESTE) (th_ambulancias s)).
  pose proof (conta_nao_negativo (ambulancia_esperando_em OESTE) (th_ambulancias s)).
  unfold proximo_estado_normal, proximo_estado_emergencia,
    demanda_ns, demanda_lo, demanda_amb_ns, demanda_amb_lo.
  rewrite (Hc _ HN), (Hc _ HS), (Hc _ HL), (Hc _ HO).
  rewrite (Ha _ HN), (Ha _ HS), (Ha _ HL), (Ha _ HO).
  split; [|split].
  - intros Hpos.
    match goal with |- context [?a >=? ?b] => destruct (Z.geb_spec a b) end;
      cbn [fst].
    + destruct (fila_do_eixo carro_esperando_em CarroEsperando (th_carros s)
                  NORTE SUL carro_esperando_em_inv ltac:(lia))
        as (i & d & Hl & [-> | ->]); exists i; eexists; split; eauto.
    + destruct (fila_do_eixo carro_esperando_em CarroEsperando (th_carros s)
                  LESTE OESTE carro_esperando_em_inv ltac:(lia))
        as (i & d & Hl & [-> | ->]); exists i; eexists; split; eauto.
  - match goal with |- context [?a >=? ?b] => destruct (Z.geb_spec a b) end;
      cbn [snd]; lia.
  - intros Hpos.
    match goal with |- context [?a >=? ?b] => destruct (Z.geb_spec a b) end.
    + destruct (fila_do_eixo ambulancia_esperando_em AmbulanciaEsperando
                  (th_ambulancias s) NORTE SUL ambulancia_esperando_em_inv
                  ltac:(lia))
        as (i & d & Hl & [-> | ->]); exists i; eexists; split; eauto.
    + destruct (fila_do_eixo ambulancia_esperando_em AmbulanciaEsperando
                  (th_ambulancias s) LESTE OESTE ambulancia_esperando_em_inv
                  ltac:(lia))
        as (i & d & Hl & [-> | ->]); exists i; eexists; split; eauto.
Qed.

(** Two East cars and a West car wait under [FLUXO_NS], a North car is
    inside; an East ambulance waits. *)
Lemma fluxo_abre_eixo_com_fila_witness :
  (0 < demanda_ns (cruzamento
         (apos [ThCarro 18; ThCarro 19; ThCarro 26; ThCarro 0;
                ThAmbulancia 3; ThAmbulancia 3]))
       + demanda_lo (cruzamento
           (apos [ThCarro 18; ThCarro 19; ThCarro 26; ThCarro 0;
                  ThAmbulancia 3; ThAmbulancia 3])) ->
   exists i d,
     th_carros (apos [ThCarro 18; ThCarro 19; ThCarro 26; ThCarro 0;
                      ThAmbulancia 3; ThAmbulancia 3]) !! i
     = Some (d, CarroEsperando)
     /\ eixo_direcao d
        = eixo_estado (fst (proximo_estado_normal (cruzamento
            (apos [ThCarro 18; ThCarro 19; ThCarro 26; ThCarro 0;
                   ThAmbulancia 3; ThAmbulancia 3])))))
  /\ snd (proximo_estado_normal (cruzamento
       (apos [ThCarro 18; ThCarro 19; ThCarro 26; ThCarro 0;
              ThAmbulancia 3; ThAmbulancia 3])))
     = Z.max (demanda_ns (cruzamento
                (apos [ThCarro 18; ThCarro 19; ThCarro 26; ThCarro 0;
                       ThAmbulancia 3; ThAmbulancia 3])))
             (demanda_lo (cruzamento
                (apos [ThCarro 18; ThCarro 19; ThCarro 26; ThCarro 0;
                       ThAmbulancia 3; ThAmbulancia 3])))
  /\ (0 < demanda_amb_ns (cruzamento
            (apos [ThCarro 18; ThCarro 19; ThCarro 26; ThCarro 0;
                   ThAmbulancia 3; ThAmbulancia 3]))
          + demanda_amb_lo (cruzamento
              (apos [ThCarro 18; ThCarro 19; ThCarro 26; ThCarro 0;
                     ThAmbulancia 3; ThAmbulancia 3])) ->
      exists i d,
        th_ambulancias (apos [ThCarro 18; ThCarro 19; ThCarro 26; ThCarro 0;
                              ThAmbulancia 3; ThAmbulancia 3]) !! i
        = Some (d, AmbulanciaEsperando)
        /\ eixo_direcao d
           = eixo_estado (proximo_estado_emergencia (cruzamento
               (apos [ThCarro 18; ThCarro 19; ThCarro 26; ThCarro 0;
                      ThAmbulancia 3; ThAmbulancia 3])))).
Proof.
  apply (fluxo_abre_eixo_com_fila main_carros main_ambulancias
           (apos [ThCarro 18; ThCarro 19; ThCarro 26; ThCarro 0;
                  ThAmbulancia 3; ThAmbulancia 3])).
  - vm_compute; repeat (constructor; [lia|]); constructor.
  - vm_compute; repeat (constructor; [lia|]); constructor.
  - apply executa_alcancavel
      with (ts := [ThCarro 18; ThCarro 19; ThCarro 26; ThCarro 0;
                   ThAmbulancia 3; ThAmbulancia 3]).
    vm_compute. reflexivity.
Defined.
